(** * TemporalProvider: display states of city objects through time

    A shallow embedding of
    [UD-Viz-Core/src/Modules/Temporal/ViewModel/TemporalProvider.js]
    and the properties of its culling, style-name and caching logic.

    Conventions of the embedding.
    - A JavaScript number used as a date is a canonical rational [Qc]:
      the comparisons are those of the numbers, equal dates are equal
      keys of the [Map] cache, and [/ 2], [+ 1.5] and [- 1.5] are exact
      there, where the binary64 arithmetic of JavaScript rounds.  The
      labelling rules of [culling] are stated on the tests as the code
      makes them, and the branch that adds and subtracts [halfVintage]
      is also read on binary64 numbers (module [Vintage]).
    - A value that may be [undefined] is an [option]; a relational
      operator with an [undefined] operand is [false], as in JavaScript.
    - [console.warn] is a writer effect: a function that may warn returns
      its value together with the diagnostics it printed, in order.
    - The fields of [this] that the methods read or write, and the calls
      made on the tiles manager, are threaded through a state monad. *)

From Stdlib Require Import QArith Qcanon Lqa PrimFloat.
From stdpp Require Import gmap strings list fin_maps numbers countable
  sorting.

Set Warnings "-register-all".
Open Scope Qc_scope.

(** ** JavaScript values *)

Module Js.

(** A style label as the arrays of the provider hold it: a string, or
    [undefined] when [getTransactionStyleName] fell through. *)
Inductive value : Type :=
| Str (s : string)
| Undefined.

#[global] Instance value_eq_dec : EqDecision value.
Proof. solve_decision. Defined.

(** [ToString] of the string concatenation operator [+]. *)
Definition to_string (v : value) : string :=
  match v with
  | Str s => s
  | Undefined => "undefined"
  end.

(** An integer as a number. *)
Definition num (z : Z) : Qc := Q2Qc (inject_Z z).

(** The relational operators on numbers; [a >= b] is [b <= a] and
    [a > b] is [b < a] since no operand is NaN. *)
Definition le (a b : Qc) : bool := bool_decide (a <= b).
Definition lt (a b : Qc) : bool := bool_decide (a < b).
Definition ge (a b : Qc) : bool := le b a.
Definition gt (a b : Qc) : bool := lt b a.

(** The same operators when the right operand is an array element that
    may be missing: [x >= undefined] and the like are [false]. *)
Definition ge_elem (a : Qc) (b : option Qc) : bool :=
  match b with Some b => ge a b | None => false end.
Definition le_elem (a : Qc) (b : option Qc) : bool :=
  match b with Some b => le a b | None => false end.
Definition lt_elem (a : Qc) (b : option Qc) : bool :=
  match b with Some b => lt a b | None => false end.
Definition gt_elem (a : Qc) (b : option Qc) : bool :=
  match b with Some b => gt a b | None => false end.

End Js.

(** ** Diagnostics and the writer of [console.warn] *)

(** The three warnings of the file, by the place that prints them. *)
Inductive Diagnostic : Type :=
| NotPrimaryNorAggregate
    (* 'Transaction which is not a primary nor an aggregate.' *)
| BatchTableNotLoaded (tileId : Z)
    (* `Cannot compute features states for tile ${tileId} since ...` *)
| StyleNotRegistered (featureStyleName : Js.value)
    (* "Style " + featureStyleName + " is not registered. ..." *).

#[global] Instance Diagnostic_eq_dec : EqDecision Diagnostic.
Proof. solve_decision. Defined.

Module Console.

Definition t (A : Type) : Type := A * list Diagnostic.

Definition ret {A} (a : A) : t A := (a, []).

Definition bind {A B} (m : t A) (k : A -> t B) : t B :=
  let '(a, w1) := m in
  let '(b, w2) := k a in
  (b, w1 ++ w2).

Definition warn (d : Diagnostic) : t unit := (tt, [d]).

Definition value {A} (m : t A) : A := fst m.
Definition printed {A} (m : t A) : list Diagnostic := snd m.

End Console.

#[global] Instance Console_ret : MRet Console.t := @Console.ret.
#[global] Instance Console_bind : MBind Console.t :=
  fun A B k m => Console.bind m k.

(** ** Data model *)

(** A transaction object as the provider reads it: the two flags, the
    type of a primary transaction, the nested transactions of an
    aggregate, and the dates. *)
Inductive Transaction : Type :=
  mkTransaction {
    isPrimary : bool;
    isAggregate : bool;
    type : string;
    transactions : list Transaction;
    startDate : Qc;
    endDate : Qc
  }.

(** [featuresTransacs[featureId]]: the transactions a feature is the
    source and the destination of, each possibly missing. *)
Record FeatureTransacs : Type :=
  mkFeatureTransacs {
    asSource : option Transaction;
    asDestination : option Transaction
  }.

(** The temporal batch table of a tile. *)
Record BatchTable : Type :=
  mkBatchTable {
    featureIds : list string;
    startDates : list Qc;
    endDates : list Qc;
    featuresTransacs : gmap string FeatureTransacs
  }.

(** ** getTransactionStyleName *)

(** The recursive method.  The inner fixpoint is the [for] loop over
    [transaction.transactions], with [styleName] as the loop variable
    that each iteration both passes down and extends. *)
Fixpoint getTransactionStyleName (transaction : Transaction)
    (styleName : string) : Console.t Js.value :=
  match transaction with
  | mkTransaction isPrimary isAggregate type transactions _ _ =>
    if isPrimary then Console.ret (Js.Str type)
    else if isAggregate then
      let styleName :=
        if String.eqb styleName "" then "aggregate" else styleName in
      (fix loop (rest : list Transaction) (styleName : string)
         : Console.t Js.value :=
         match rest with
         | [] => Console.ret (Js.Str styleName)
         | nested :: rest' =>
           r ← getTransactionStyleName nested styleName;
           loop rest' (styleName +:+ "-" +:+ Js.to_string r)
         end) transactions styleName
    else
      Console.warn NotPrimaryNorAggregate;;
      Console.ret Js.Undefined
  end.

(** ** culling *)

Definition halfVintage : Qc := Q2Qc (3 # 2).

Section Culling.

(** [this.currentTime], read by every iteration. *)
Variable currentTime : Qc.
Variable BT : BatchTable.

(** The source half of the TRANSACTION CASE: when [currentTime] is in
    the first half of [transacAsSource], set [hasTransac] and push the
    style name. The pair is [(hasTransac, featuresDisplayStates)]. *)
Definition cullAsSource (transacAsSource : option Transaction)
    (hasTransac : bool) (featuresDisplayStates : list Js.value)
    : Console.t (bool * list Js.value) :=
  match transacAsSource with
  | Some transacAsSource =>
    let transacAsSourceHalfDuration :=
      (endDate transacAsSource - startDate transacAsSource) / Js.num 2 in
    if Js.gt currentTime (startDate transacAsSource) &&
       Js.le currentTime
         (startDate transacAsSource + transacAsSourceHalfDuration)
    then
      name ← getTransactionStyleName transacAsSource "";
      mret (true, featuresDisplayStates ++ [name])
    else mret (hasTransac, featuresDisplayStates)
  | None => mret (hasTransac, featuresDisplayStates)
  end.

(** The destination half: the second half of [transacAsDest]. *)
Definition cullAsDest (transacAsDest : option Transaction)
    (hasTransac : bool) (featuresDisplayStates : list Js.value)
    : Console.t (bool * list Js.value) :=
  match transacAsDest with
  | Some transacAsDest =>
    let transacAsDestHalfDuration :=
      (endDate transacAsDest - startDate transacAsDest) / Js.num 2 in
    if Js.gt currentTime
         (startDate transacAsDest + transacAsDestHalfDuration) &&
       Js.le currentTime (endDate transacAsDest)
    then
      name ← getTransactionStyleName transacAsDest "";
      mret (true, featuresDisplayStates ++ [name])
    else mret (hasTransac, featuresDisplayStates)
  | None => mret (hasTransac, featuresDisplayStates)
  end.

(** One iteration of the [for] loop: the array before, the array
    after.  [push] appends at the end. *)
Definition cullFeature (i : nat) (featureId : string)
    (featuresDisplayStates : list Js.value)
    : Console.t (list Js.value) :=
  if Js.ge_elem currentTime (startDates BT !! i) &&
     Js.le_elem currentTime (endDates BT !! i)
  then
    (* FEATURE EXISTS *)
    mret (featuresDisplayStates ++ [Js.Str "noTransaction"])
  else
    match featuresTransacs BT !! featureId with
    | Some featureTransacs =>
      (* TRANSACTION CASE *)
      '(hasTransac, featuresDisplayStates) ←
        cullAsSource (asSource featureTransacs) false featuresDisplayStates;
      '(hasTransac, featuresDisplayStates) ←
        cullAsDest (asDestination featureTransacs) hasTransac
          featuresDisplayStates;
      if negb hasTransac
      then mret (featuresDisplayStates ++ [Js.Str "hide"])
      else mret featuresDisplayStates
    | None =>
      (* FEATURE DOES NOT EXIST AND THERE IS NO TRANSACTION *)
      if Js.ge_elem (currentTime + halfVintage) (startDates BT !! i) &&
         Js.lt_elem currentTime (startDates BT !! i)
      then mret (featuresDisplayStates ++ [Js.Str "creation"])
      else if Js.lt_elem (currentTime - halfVintage) (endDates BT !! i) &&
              Js.gt_elem currentTime (endDates BT !! i)
      then mret (featuresDisplayStates ++ [Js.Str "demolition"])
      else mret (featuresDisplayStates ++ [Js.Str "hide"])
    end.

(** The loop from index [i] on; [rest] is [BT.featureIds] from [i]. *)
Fixpoint cullFrom (rest : list string) (i : nat)
    (featuresDisplayStates : list Js.value) : Console.t (list Js.value) :=
  match rest with
  | [] => mret featuresDisplayStates
  | featureId :: rest' =>
    featuresDisplayStates ← cullFeature i featureId featuresDisplayStates;
    cullFrom rest' (S i) featuresDisplayStates
  end.

Definition culling : Console.t (list Js.value) :=
  cullFrom (featureIds BT) 0%nat [].

End Culling.

(** ** The provider and its effects *)

(** [new CityObjectID(tileId, batchId)]. *)
Record CityObjectID : Type :=
  mkCityObjectID { cityObjectTileId : Z; batchId : nat }.

(** What the provider does to the outside: a line on the console or a
    [tilesManager.setStyle] call. *)
Inductive Effect : Type :=
| ConsoleWarn (d : Diagnostic)
| SetStyle (id : CityObjectID) (styleName : Js.value).

(** What [computeFeaturesStates] returns: the [{}] it starts from, or an
    array of display states. *)
Inductive FeaturesStates : Type :=
| EmptyObject
| StatesArray (displayStates : list Js.value).

(** [featuresStates.length]; [{}] has none. *)
Definition statesLength (featuresStates : FeaturesStates) : option nat :=
  match featuresStates with
  | EmptyObject => None
  | StatesArray displayStates => Some (length displayStates)
  end.

(** The elements a [for (i = 0; i < x.length; i++)] loop visits:
    none for [{}], since [0 < undefined] is [false]. *)
Definition statesElements (featuresStates : FeaturesStates) : list Js.value :=
  match featuresStates with
  | EmptyObject => []
  | StatesArray displayStates => displayStates
  end.

(** The fields of [this] the methods use, [temporalBatchTables] being
    [this.temporalExtensionModel.temporalBatchTables], and the effects
    performed so far, oldest first. *)
Record TemporalProvider : Type :=
  mkTemporalProvider {
    temporalBatchTables : gmap Z BatchTable;
    currentTime : Qc;
    datedTilesDisplayStates : gmap Qc (gmap Z (list Js.value));
    effects : list Effect
  }.

Module Method.

(** A method body: a computation on [this]. *)
Definition t (A : Type) : Type := TemporalProvider -> A * TemporalProvider.

Definition ret {A} (a : A) : t A := fun this => (a, this).

Definition bind {A B} (m : t A) (k : A -> t B) : t B :=
  fun this => let '(a, this') := m this in k a this'.

Definition this : t TemporalProvider := fun this => (this, this).

Definition perform (e : Effect) : t unit :=
  fun this =>
    (tt, mkTemporalProvider (temporalBatchTables this) (currentTime this)
           (datedTilesDisplayStates this) (effects this ++ [e])).

Definition warn (d : Diagnostic) : t unit := perform (ConsoleWarn d).

(** Run a function that may warn, replaying its warnings. *)
Definition console {A} (m : Console.t A) : t A :=
  fun this =>
    (Console.value m,
     mkTemporalProvider (temporalBatchTables this) (currentTime this)
       (datedTilesDisplayStates this)
       (effects this ++ (ConsoleWarn <$> Console.printed m))).

Definition updateDisplayStates
    (f : gmap Qc (gmap Z (list Js.value)) -> gmap Qc (gmap Z (list Js.value)))
    : t unit :=
  fun this =>
    (tt, mkTemporalProvider (temporalBatchTables this) (currentTime this)
           (f (datedTilesDisplayStates this)) (effects this)).

End Method.

#[global] Instance Method_ret : MRet Method.t := @Method.ret.
#[global] Instance Method_bind : MBind Method.t :=
  fun A B k m => Method.bind m k.

(** [initTransactionsStyles]: the names registered at construction. *)
Definition initTransactionsStyles : list string :=
  ["noTransaction"; "creation"; "demolition"; "modification"; "hide"].

(** Modelled from the spec: [TilesManager.isStyleRegistered], whose file
    is not among the sources; a registry "answering whether a given label
    is currently registered", here holding the names of [registered]. *)
Definition isRegisteredIn (registered : list string) (name : Js.value) : bool :=
  match name with
  | Js.Str s => bool_decide (s ∈ registered)
  | Js.Undefined => false
  end.

Record TileContent : Type := mkTileContent { tileId : Z }.

Section Provider.

(** [this.culling], called through [this]. *)
Variable cullingMethod : Qc -> BatchTable -> Console.t (list Js.value).

(** [this.tilesManager.isStyleRegistered]. *)
Variable isStyleRegistered : Js.value -> bool.

Definition computeFeaturesStatesWith (tileId : Z) : Method.t FeaturesStates :=
  if bool_decide (tileId = 0%Z) then mret EmptyObject
  else
    this ← Method.this;
    (* If it has already been computed, don't do it again *)
    match datedTilesDisplayStates this !! currentTime this
            ≫= (fun tiles => tiles !! tileId) with
    | Some displayStates => mret (StatesArray displayStates)
    | None =>
      match temporalBatchTables this !! tileId with
      | Some tileTemporalBT =>
        (if bool_decide (is_Some
              (datedTilesDisplayStates this !! currentTime this))
         then mret tt
         else Method.updateDisplayStates (insert (currentTime this) ∅));;
        featuresDisplayStates ←
          Method.console (cullingMethod (currentTime this) tileTemporalBT);
        Method.updateDisplayStates
          (alter (insert tileId featuresDisplayStates) (currentTime this));;
        mret (StatesArray featuresDisplayStates)
      | None =>
        Method.warn (BatchTableNotLoaded tileId);;
        mret EmptyObject
      end
    end.

(** The body of the loop of [computeTileState] at index [i]. *)
Definition styleFeature (tileId : Z) (i : nat) (featureStyleName : Js.value)
    : Method.t unit :=
  if isStyleRegistered featureStyleName
  then Method.perform (SetStyle (mkCityObjectID tileId i) featureStyleName)
  else
    Method.warn (StyleNotRegistered featureStyleName);;
    Method.perform
      (SetStyle (mkCityObjectID tileId i) (Js.Str "noTransaction")).

(** The loop from index [i] on; [rest] is [featuresStates] from [i]. *)
Fixpoint styleFrom (tileId : Z) (rest : list Js.value) (i : nat)
    : Method.t unit :=
  match rest with
  | [] => mret tt
  | featureStyleName :: rest' =>
    styleFeature tileId i featureStyleName;;
    styleFrom tileId rest' (S i)
  end.

Definition computeTileStateWith (tileContent : TileContent) : Method.t unit :=
  featuresStates ← computeFeaturesStatesWith (tileId tileContent);
  styleFrom (tileId tileContent) (statesElements featuresStates) 0%nat.

End Provider.

(** The methods with [this.culling] bound to [culling]. *)
Definition computeFeaturesStates : Z -> Method.t FeaturesStates :=
  computeFeaturesStatesWith culling.

Definition computeTileState (isStyleRegistered : Js.value -> bool)
    : TileContent -> Method.t unit :=
  computeTileStateWith culling isStyleRegistered.

(** ** Definitions used to state the properties *)

(** The [for] loop of [getTransactionStyleName] as a function of its own:
    what is left of [transaction.transactions] and [styleName] so far. *)
Fixpoint styleNameLoop (rest : list Transaction) (styleName : string)
    : Console.t Js.value :=
  match rest with
  | [] => mret (Js.Str styleName)
  | nested :: rest' =>
    r ← getTransactionStyleName nested styleName;
    styleNameLoop rest' (styleName +:+ "-" +:+ Js.to_string r)
  end.

(** What the recursive calls of the loop return, as strings, in order:
    each call receives the name accumulated before it. *)
Fixpoint nestedNames (rest : list Transaction) (styleName : string)
    : list string :=
  match rest with
  | [] => []
  | nested :: rest' =>
    let r :=
      Js.to_string (Console.value (getTransactionStyleName nested styleName)) in
    r :: nestedNames rest' (styleName +:+ "-" +:+ r)
  end.

(** ["-" + n1 + "-" + n2 + ...]. *)
Definition dashed (names : list string) : string :=
  foldr (fun name tail => "-" +:+ name +:+ tail) "" names.

(** The two half-windows of a transaction: [(start, start + h]] and
    [(start + h, end]] with [h = (end - start) / 2]. *)
Definition halfDuration (transaction : Transaction) : Qc :=
  (endDate transaction - startDate transaction) / Js.num 2.

Definition inFirstHalf (t : Qc) (transaction : Transaction) : Prop :=
  startDate transaction < t /\
  t <= startDate transaction + halfDuration transaction.

Definition inSecondHalf (t : Qc) (transaction : Transaction) : Prop :=
  startDate transaction + halfDuration transaction < t /\
  t <= endDate transaction.

(** A feature's outgoing transaction is in its first half at [t]. *)
Definition sourceFires (t : Qc) (transacAsSource : option Transaction) : Prop :=
  match transacAsSource with
  | Some transaction => inFirstHalf t transaction
  | None => False
  end.

(** A feature's incoming transaction is in its second half at [t]. *)
Definition destinationFires (t : Qc) (transacAsDest : option Transaction)
    : Prop :=
  match transacAsDest with
  | Some transaction => inSecondHalf t transaction
  | None => False
  end.

(** [startDates[i] <= t <= endDates[i]], both dates being there. *)
Definition withinLifespan (t : Qc) (BT : BatchTable) (i : nat) : Prop :=
  match startDates BT !! i, endDates BT !! i with
  | Some s, Some e => s <= t /\ t <= e
  | _, _ => False
  end.

#[global] Instance inFirstHalf_dec t transaction :
  Decision (inFirstHalf t transaction).
Proof. unfold inFirstHalf; apply _. Defined.

#[global] Instance inSecondHalf_dec t transaction :
  Decision (inSecondHalf t transaction).
Proof. unfold inSecondHalf; apply _. Defined.

#[global] Instance sourceFires_dec t transacAsSource :
  Decision (sourceFires t transacAsSource).
Proof. destruct transacAsSource; simpl; apply _. Defined.

#[global] Instance destinationFires_dec t transacAsDest :
  Decision (destinationFires t transacAsDest).
Proof. destruct transacAsDest; simpl; apply _. Defined.

#[global] Instance withinLifespan_dec t BT i : Decision (withinLifespan t BT i).
Proof.
  unfold withinLifespan.
  destruct (startDates BT !! i), (endDates BT !! i); apply _.
Defined.

(** The labels that the iterations for the features [rest], the first of
    them at index [i], push on an empty array. *)
Definition labelsFrom (t : Qc) (BT : BatchTable) (rest : list string) (i : nat)
    : list Js.value :=
  Console.value (cullFrom t BT rest i []).

(** The entry of the cache for the current time and a tile. *)
Definition cachedStates (this : TemporalProvider) (tileId : Z)
    : option (list Js.value) :=
  datedTilesDisplayStates this !! currentTime this
    ≫= (fun tiles => tiles !! tileId).

(** [this] after some more effects, nothing else changed. *)
Definition withEffects (this : TemporalProvider) (more : list Effect)
    : TemporalProvider :=
  mkTemporalProvider (temporalBatchTables this) (currentTime this)
    (datedTilesDisplayStates this) (effects this ++ more).

(** What [computeTileState] is to do for the label at index [i]: style the
    city object with the label when it is registered, else warn and style
    it with ['noTransaction']. *)
Definition styleRequest (isStyleRegistered : Js.value -> bool) (tileId : Z)
    (i : nat) (featureStyleName : Js.value) : list Effect :=
  if isStyleRegistered featureStyleName
  then [SetStyle (mkCityObjectID tileId i) featureStyleName]
  else [ConsoleWarn (StyleNotRegistered featureStyleName);
        SetStyle (mkCityObjectID tileId i) (Js.Str "noTransaction")].

(** The labels a fired window pushes. *)
Definition pushedBy (fires : bool) (transaction : Transaction)
    : list Js.value :=
  if fires then [Console.value (getTransactionStyleName transaction "")]
  else [].

(** ** The vintage branch on any numbers *)

(** The last branch of an iteration of [culling], for a feature that is
    not alive and has no transaction record, reads three numbers:
    [this.currentTime], [BT.startDates[i]] and [BT.endDates[i]].  It is
    written here over any type of numbers, given the [+], [-], [<=] and
    [<] it uses, and read twice: on the exact dates of [culling], and on
    binary64 numbers, the numbers of JavaScript, where the sum
    [currentTime + halfVintage] and the difference
    [currentTime - halfVintage] round. *)
Module Vintage.

Section Numbers.

Context {Num : Type}.
Variables add sub : Num -> Num -> Num.
Variables le lt : Num -> Num -> bool.
Variable halfVintage : Num.

(** [a >= b] is [b <= a] and [a > b] is [b < a], NaN included; with
    [undefined] on the right each comparison is [false]. *)
Definition ge_elem (a : Num) (b : option Num) : bool :=
  match b with Some b => le b a | None => false end.
Definition lt_elem (a : Num) (b : option Num) : bool :=
  match b with Some b => lt a b | None => false end.
Definition gt_elem (a : Num) (b : option Num) : bool :=
  match b with Some b => lt b a | None => false end.

(** The label the branch pushes. *)
Definition displayState (currentTime : Num) (startDate endDate : option Num)
    : string :=
  if ge_elem (add currentTime halfVintage) startDate &&
     lt_elem currentTime startDate
  then "creation"
  else if lt_elem (sub currentTime halfVintage) endDate &&
          gt_elem currentTime endDate
  then "demolition"
  else "hide".

End Numbers.

(** On the dates of [culling]. *)
Definition exact : Qc -> option Qc -> option Qc -> string :=
  displayState Qcplus Qcminus Js.le Js.lt halfVintage.

(** On binary64 numbers: the IEEE 754 sum, difference and comparisons,
    and [halfVintage = 1.5]. *)
Definition binary64 : float -> option float -> option float -> string :=
  displayState PrimFloat.add PrimFloat.sub PrimFloat.leb PrimFloat.ltb
    1.5%float.

End Vintage.

(** The numbers written [0.1], [1.6], [0.13] and [1.63] in a program:
    the binary64 numbers nearest to these decimals. *)
Definition tenth : float := 0x1.999999999999ap-4%float.
Definition sixteenTenths : float := 0x1.999999999999ap+0%float.
Definition thirteenHundredths : float := 0x1.0a3d70a3d70a4p-3%float.
Definition oneSixtyThree : float := 0x1.a147ae147ae14p+0%float.

(** ** Sample data *)

Definition primary (ty : string) (s e : Z) : Transaction :=
  mkTransaction true false ty [] (Js.num s) (Js.num e).

Definition aggregate (nested : list Transaction) (s e : Z) : Transaction :=
  mkTransaction false true "" nested (Js.num s) (Js.num e).

(** An aggregate wrapping a creation and a demolition. *)
Definition creationThenDemolition : Transaction :=
  aggregate [primary "creation" 10 20; primary "demolition" 10 20] 10 20.

(** An aggregate whose second nested transaction is itself an aggregate. *)
Definition nestedAggregate : Transaction :=
  aggregate [primary "creation" 10 20;
             aggregate [primary "modification" 10 20] 10 20] 10 20.

(** One feature, alive on [[100, 200]], source of a modification on
    [[0, 10]] and destination of a creation on [[0, 6]]. *)
Definition modificationOf : Transaction := primary "modification" 0 10.
Definition creationInto : Transaction := primary "creation" 0 6.
Definition overlappingTable : BatchTable :=
  mkBatchTable ["A"] [Js.num 100] [Js.num 200]
    {[ "A" := mkFeatureTransacs (Some modificationOf) (Some creationInto) ]}.

(** One feature with lifespan [[0, 5]] and no transaction. *)
Definition lifespan05 : BatchTable :=
  mkBatchTable ["A"] [Js.num 0] [Js.num 5] ∅.

(** A provider at time 4 that has loaded tile 3 and computed nothing. *)
Definition freshProvider : TemporalProvider :=
  mkTemporalProvider
    {[ 3%Z := mkBatchTable ["A"; "B"] [Js.num 0; Js.num 5] [Js.num 10; Js.num 9]
                {[ "B" := mkFeatureTransacs
                            (Some (aggregate [primary "modification" 0 8] 0 8))
                            None ]} ]}
    (Js.num 4) ∅ [].

(** ** Further definitions used to state properties *)

(** The iteration for a feature pushes two labels: the feature is not
    alive and both of its transactions fire. *)
Definition pushesTwice (t : Qc) (BT : BatchTable) (i : nat)
    (featureId : string) : Prop :=
  ~ withinLifespan t BT i /\
  exists featureTransacs,
    featuresTransacs BT !! featureId = Some featureTransacs
    /\ sourceFires t (asSource featureTransacs)
    /\ destinationFires t (asDestination featureTransacs).

(** The labels [culling] writes itself, not taken from a transaction. *)
Definition ownLabels : list Js.value :=
  [Js.Str "noTransaction"; Js.Str "creation"; Js.Str "demolition";
   Js.Str "hide"].

(** A transaction all of whose parts are primary or aggregate. *)
Fixpoint wellFormed (transaction : Transaction) : bool :=
  match transaction with
  | mkTransaction isPrimary isAggregate _ transactions _ _ =>
    isPrimary || (isAggregate && forallb wellFormed transactions)
  end.

(** Every transaction of a batch table is well formed. *)
Definition wellFormedTable (BT : BatchTable) : Prop :=
  forall featureId featureTransacs transaction,
    featuresTransacs BT !! featureId = Some featureTransacs ->
    asSource featureTransacs = Some transaction
    \/ asDestination featureTransacs = Some transaction ->
    wellFormed transaction = true.

(** One feature, alive on [[10, 20]], created by a transaction on
    [[5, 10]] and demolished by one on [[20, 25]]. *)
Definition orderedTable : BatchTable :=
  mkBatchTable ["A"] [Js.num 10] [Js.num 20]
    {[ "A" := mkFeatureTransacs (Some (primary "demolition" 20 25))
                (Some (primary "creation" 5 10)) ]}.

(** The entry of the cache for a time and a tile. *)
Definition cachedAt (this : TemporalProvider) (t : Qc) (tileId : Z)
    : option (list Js.value) :=
  datedTilesDisplayStates this !! t ≫= (fun tiles => tiles !! tileId).

(** Every entry of the cache is what [culling] returns for the batch
    table of its tile at its time. *)
Definition cacheSound (this : TemporalProvider) : Prop :=
  forall t tileId displayStates,
    cachedAt this t tileId = Some displayStates ->
    exists BT,
      temporalBatchTables this !! tileId = Some BT
      /\ displayStates = Console.value (culling t BT).

(** The [setStyle] calls among some effects, in order. *)
Definition styleCalls (performed : list Effect)
    : list (CityObjectID * Js.value) :=
  omap (fun e => match e with
                 | SetStyle id styleName => Some (id, styleName)
                 | ConsoleWarn _ => None
                 end) performed.

(** The warnings among some effects, in order. *)
Definition warnings (performed : list Effect) : list Diagnostic :=
  omap (fun e => match e with
                 | ConsoleWarn d => Some d
                 | SetStyle _ _ => None
                 end) performed.

(** A provider at time 6 that has loaded tile 5, whose one feature has
    the lifespan [[0, 5]] and no transaction. *)
Definition plainProvider : TemporalProvider :=
  mkTemporalProvider {[ 5%Z := lifespan05 ]} (Js.num 6) ∅ [].

(** ** 3DTilesUtils *)

(** What a call throws: the [TypeError] of reading a property of
    [undefined], or a string. *)
Inductive Thrown : Type :=
| TypeError
| Message (text : string).

(** How a call ends: with a value, or by throwing. *)
Inductive Completion (A : Type) : Type :=
| Normal (a : A)
| Throw (e : Thrown).

Arguments Normal {A} a.
Arguments Throw {A} e.

Module TilesUtils.

(** An entry of [geometry.groups], as [addGroup] pushes it. *)
Record Group : Type :=
  mkGroup { start : Z; count : Z; materialIndex : Z }.

(** The [_BATCHID] attribute of a buffer geometry. *)
Record BufferAttribute : Type :=
  mkBufferAttribute { attributeCount : Z; array : list Z }.

(** [geometry.attributes], with the one attribute the functions read. *)
Record Attributes : Type :=
  mkAttributes { BATCHID : option BufferAttribute }.

Record Geometry : Type :=
  mkGeometry {
    geometryType : string;
    attributes : option Attributes;
    groups : list Group
  }.

(** An entry of [mesh.material]: a material that was there, [undefined],
    or the [MeshLambertMaterial] that [createTileGroups] makes (always
    with [transparent: true]). *)
Inductive Material (M : Type) : Type :=
| Existing (m : M)
| UndefinedMaterial
| MeshLambertMaterial (color : Z) (opacity : Qc).

Arguments Existing {M} m.
Arguments UndefinedMaterial {M}.
Arguments MeshLambertMaterial {M} color opacity.

(** [mesh.material]: one material, or an array of them. *)
Inductive MaterialSlot (M : Type) : Type :=
| Single (m : Material M)
| Multi (ms : list (Material M)).

Arguments Single {M} m.
Arguments Multi {M} ms.

(** A node of the scene graph, with the properties the functions read;
    [B] is what a batch table is and [M] what a material is. *)
Inductive Object3D (B M : Type) : Type :=
  mkObject3D {
    type : string;
    tileId : Z;
    batchTable : option B;
    children : list (Object3D B M);
    geometry : option Geometry;
    material : MaterialSlot M
  }.

Arguments mkObject3D {B M} type tileId batchTable children geometry material.
Arguments type {B M} _.
Arguments tileId {B M} _.
Arguments batchTable {B M} _.
Arguments children {B M} _.
Arguments geometry {B M} _.
Arguments material {B M} _.

(** A 3DTiles layer: [layer.object3d]. *)
Record Layer (B M : Type) : Type := mkLayer { object3d : Object3D B M }.

Arguments mkLayer {B M} object3d.
Arguments object3d {B M} _.

(** A range of vertices, [[start, count]]. *)
Definition Range : Type := (Z * Z)%type.

Section Tiles.

Context {B M : Type}.

(** The closure [exploreTree] of [getVisibleTiles]; [tiles] is the array
    it pushes on, and the inner fixpoint is [node.children.forEach]. *)
Fixpoint exploreTree (node : Object3D B M) (tiles : list (Object3D B M))
    : list (Object3D B M) :=
  match node with
  | mkObject3D _ _ batchTable children _ _ =>
    let tiles :=
      match batchTable with
      | Some _ => tiles ++ [node]   (* It's an actual tile *)
      | None => tiles
      end in
    (fix forEach (rest : list (Object3D B M)) (tiles : list (Object3D B M))
       : list (Object3D B M) :=
       match rest with
       | [] => tiles
       | child :: rest' =>
         forEach rest'
           (if String.eqb (type child) "Object3D"
            then exploreTree child tiles
            else tiles)
       end) children tiles
  end.

(** [node.children.forEach] of [exploreTree] as a function of its own. *)
Fixpoint forEachChild (rest tiles : list (Object3D B M))
    : list (Object3D B M) :=
  match rest with
  | [] => tiles
  | child :: rest' =>
    forEachChild rest'
      (if String.eqb (type child) "Object3D"
       then exploreTree child tiles
       else tiles)
  end.

Definition getVisibleTiles (layer : Layer B M)
    : Completion (list (Object3D B M)) :=
  match children (object3d layer) !! 0%nat with
  | Some rootTile => Normal (exploreTree rootTile [])
  | None => Throw TypeError   (* node.batchTable of undefined *)
  end.

Definition getVisibleTileCount (layer : Layer B M) : Completion nat :=
  match getVisibleTiles layer with
  | Normal tiles => Normal (length tiles)
  | Throw e => Throw e
  end.

(** [tileset.children.find(...)]: [None] is [undefined]. *)
Definition getTileInTileset (tileset : Object3D B M) (id : Z)
    : option (Object3D B M) :=
  List.find (fun tile => bool_decide (tileId tile = id)) (children tileset).

Definition getTileInLayer (layer : Layer B M) (id : Z)
    : Completion (option (Object3D B M)) :=
  match children (object3d layer) !! 0%nat with
  | Some rootTile => Normal (getTileInTileset rootTile id)
  | None => Throw TypeError   (* tileset.children of undefined *)
  end.

(** The [while] loop of [getMesh]: go to the first child as long as
    there is one and the node is not of type ['Mesh']. *)
Fixpoint findMesh (tile : Object3D B M) : Object3D B M :=
  match tile with
  | mkObject3D type _ _ children _ _ =>
    match children with
    | first :: _ =>
      if negb (String.eqb type "Mesh") then findMesh first else tile
    | [] => tile
    end
  end.

(** [getMesh]; [None] is a [tile] that is [undefined] or [null]. *)
Definition getMesh (tile : option (Object3D B M)) : Completion (Object3D B M) :=
  match tile with
  | None => Throw (Message "Tile not loaded in view")
  | Some tile =>
    let tile := findMesh tile in
    match geometry tile with
    | None => Throw TypeError          (* tile.geometry.attributes *)
    | Some tileGeometry =>
      match attributes tileGeometry with
      | None => Throw TypeError        (* attributes._BATCHID *)
      | Some tileAttributes =>
        match BATCHID tileAttributes with
        | None => Throw (Message "Invalid tile")
        | Some _ =>
          if negb (String.eqb (geometryType tileGeometry) "BufferGeometry")
          then Throw (Message "Tile has no buffer geometry")
          else Normal tile
        end
      end
    end
  end.

(** [ranges.sort((a, b) => a[0] - b[0])]: the sort by increasing start
    that keeps ranges of equal start in their order. *)
Fixpoint insertRange (range : Range) (sorted : list Range) : list Range :=
  match sorted with
  | [] => [range]
  | next :: sorted' =>
    if bool_decide (range.1 <= next.1)%Z then range :: next :: sorted'
    else next :: insertRange range sorted'
  end.

Fixpoint sortRanges (ranges : list Range) : list Range :=
  match ranges with
  | [] => []
  | range :: ranges' => insertRange range (sortRanges ranges')
  end.

(** The loop that adds, between consecutive ranges, the group of the
    first material; [rest] is [ranges] from index [i] on. *)
Fixpoint betweenRanges (rest : list Range) (groups : list Group)
    : list Group :=
  match rest with
  | range :: ((next :: _) as rest') =>
    let start := (range.1 + range.2)%Z in
    let count := (next.1 - start)%Z in
    betweenRanges rest'
      (if bool_decide (count > 0)%Z then groups ++ [mkGroup start count 0]
       else groups)
  | _ => groups
  end.

(** The groups that [createTileGroups] adds, in the order of the
    [addGroup] calls; [ranges] is already sorted and [total] is the
    number of vertices. *)
Definition addedGroups (total : Z) (ranges : list Range) : list Group :=
  match ranges with
  | first :: _ =>
    (* Adding groups for the new material *)
    let groups := (fun range : Range => mkGroup range.1 range.2 1) <$> ranges in
    let groups :=
      if bool_decide (first.1 > 0)%Z then groups ++ [mkGroup 0 first.1 0]
      else groups in
    let groups := betweenRanges ranges groups in
    match ranges !! (length ranges - 1)%nat with
    | Some final =>
      if bool_decide (final.1 + final.2 < total)%Z
      then groups ++ [mkGroup (final.1 + final.2)
                        (total - (final.1 + final.2)) 0]
      else groups
    | None => groups
    end
  | [] =>
    (* just add a group containing all vertices *)
    [mkGroup 0 total 0]
  end.

(** [createTileGroups]: what the mesh is after the call, and what the
    array [ranges] of the caller is, sorted in place when not empty. *)
Definition createTileGroups (tile : option (Object3D B M)) (groupColor : Z)
    (groupOpacity : Qc) (ranges : list Range)
    : Completion (Object3D B M * list Range) :=
  match getMesh tile with
  | Throw e => Throw e
  | Normal mesh =>
    match geometry mesh with
    | None => Throw TypeError
    | Some meshGeometry =>
      let meshMaterial :=
        match material mesh with
        | Single m => [m]                      (* need to create the array *)
        | Multi ms => [default UndefinedMaterial (ms !! 0%nat)]
                                               (* erase the other materials *)
        end in
      let total :=
        match attributes meshGeometry ≫= BATCHID with
        | Some batchIds => attributeCount batchIds
        | None => 0%Z
        end in
      let meshMaterial :=
        match ranges with
        | [] => meshMaterial
        | _ :: _ => meshMaterial ++ [MeshLambertMaterial groupColor groupOpacity]
        end in
      let ranges := sortRanges ranges in
      Normal
        (mkObject3D (type mesh) (tileId mesh) (batchTable mesh) (children mesh)
           (Some (mkGeometry (geometryType meshGeometry)
                    (attributes meshGeometry) (addedGroups total ranges)))
           (Multi meshMaterial),
         ranges)
    end
  end.

(** The nodes [exploreTree] visits from [node]: the node itself, and
    what it visits from a child of type ['Object3D']. *)
Inductive explored (node : Object3D B M) : Object3D B M -> Prop :=
| explored_here : explored node node
| explored_below child tile :
    child ∈ children node ->
    type child = "Object3D" ->
    explored child tile ->
    explored node tile.

(** A group holds a vertex. *)
Definition holds (group : Group) (vertex : Z) : Prop :=
  (start group <= vertex < start group + count group)%Z.

(** A range holds a vertex. *)
Definition inRange (range : Range) (vertex : Z) : Prop :=
  (range.1 <= vertex < range.1 + range.2)%Z.

End Tiles.

(** [mesh] is reached from [tile] by going to the first child, from
    nodes that are not of type ['Mesh']. *)
Inductive firstChildren {B M : Type} (tile : Object3D B M)
    : Object3D B M -> Prop :=
| firstChildren_here : firstChildren tile tile
| firstChildren_down first others mesh :
    children tile = first :: others ->
    type tile <> "Mesh" ->
    firstChildren first mesh ->
    firstChildren tile mesh.

(** Two ranges share no vertex. *)
Definition apart (one other : Range) : Prop :=
  forall vertex, ~ (inRange one vertex /\ inRange other vertex).

(** The group of the first material before a range, from [position]. *)
Definition gapBefore (position : Z) (range : Range) : list Group :=
  let count := (range.1 - position)%Z in
  if bool_decide (count > 0)%Z then [mkGroup position count 0] else [].

(** The groups of the first material after the first range of [rest]:
    between consecutive ranges, and from the last range to [total]. *)
Fixpoint gapsAfter (total : Z) (rest : list Range) : list Group :=
  match rest with
  | [] => []
  | range :: rest' =>
    match rest' with
    | [] =>
      if bool_decide (range.1 + range.2 < total)%Z
      then [mkGroup (range.1 + range.2) (total - (range.1 + range.2)) 0]
      else []
    | next :: _ =>
      gapBefore (range.1 + range.2) next ++ gapsAfter total rest'
    end
  end.

(** Ranges in increasing order, each starting no earlier than the one
    before ends, the first no earlier than [position], none empty. *)
Fixpoint separated (position : Z) (rest : list Range) : Prop :=
  match rest with
  | [] => True
  | range :: rest' =>
    (position <= range.1)%Z /\ (0 < range.2)%Z
    /\ separated (range.1 + range.2) rest'
  end.

(** The group of the second material for a range. *)
Definition ofSecondMaterial (range : Range) : Group :=
  mkGroup range.1 range.2 1.

(** The order of [sortRanges]. *)
Definition byStart (one other : Range) : Prop := (one.1 <= other.1)%Z.

(** The number of groups that hold a vertex. *)
Definition holders (vertex : Z) (groups : list Group) : nat :=
  length (filter (fun group => holds group vertex) groups).

#[global] Instance holds_dec group vertex : Decision (holds group vertex).
Proof. unfold holds; apply _. Defined.

#[global] Instance inRange_dec range vertex : Decision (inRange range vertex).
Proof. unfold inRange; apply _. Defined.

End TilesUtils.

(** ** changeTileState and changeVisibleTilesStates *)

Section Changes.

Context {B M : Type}.

(** [this.tilesManager.isStyleRegistered]. *)
Variable isStyleRegistered : Js.value -> bool.

(** [this.tilesManager.applyStyleToTile(tileId, { updateView })] and
    [this.tilesManager.applyStyles()], whose file is not among the
    sources. *)
Variable applyStyleToTile : Z -> bool -> Method.t unit.
Variable applyStyles : Method.t unit.

Definition changeTileState (tileContent : TileContent) : Method.t unit :=
  computeTileState isStyleRegistered tileContent;;
  applyStyleToTile (tileId tileContent) false.

(** The loop of [changeVisibleTilesStates]; [rest] is [tiles] from the
    current index on. *)
Fixpoint computeTilesStates (rest : list (TilesUtils.Object3D B M))
    : Method.t unit :=
  match rest with
  | [] => mret tt
  | tile :: rest' =>
    computeTileState isStyleRegistered (mkTileContent (TilesUtils.tileId tile));;
    computeTilesStates rest'
  end.

(** [layer] is [this.tilesManager.layer]. *)
Definition changeVisibleTilesStates (layer : TilesUtils.Layer B M)
    : Method.t (Completion unit) :=
  match TilesUtils.getVisibleTiles layer with
  | Normal tiles =>
    computeTilesStates tiles;;
    applyStyles;;
    mret (Normal tt)
  | Throw e => mret (Throw e)
  end.

End Changes.

(** A call on the tiles manager that changes neither the current time
    nor the cache of the provider. *)
Definition leavesCache (call : Method.t unit) : Prop :=
  forall this,
    currentTime (snd (call this)) = currentTime this
    /\ datedTilesDisplayStates (snd (call this))
       = datedTilesDisplayStates this.

(** A node without geometry. *)
Definition plainNode (type : string) (tileId : Z) (batchTable : option nat)
    (children : list (TilesUtils.Object3D nat nat))
    : TilesUtils.Object3D nat nat :=
  TilesUtils.mkObject3D type tileId batchTable children None
    (TilesUtils.Single TilesUtils.UndefinedMaterial).

(** A layer whose root tile holds a tile with a batch table, a mesh, and
    below a group node a second tile. *)
Definition sampleLayer : TilesUtils.Layer nat nat :=
  TilesUtils.mkLayer
    (plainNode "Object3D" 0 None
       [plainNode "Object3D" 0 None
          [plainNode "Object3D" 3 (Some 30%nat)
             [plainNode "Scene" 3 None
                [plainNode "Object3D" 9 (Some 90%nat) []]];
           plainNode "Mesh" 4 (Some 40%nat) [];
           plainNode "Object3D" 0 None
             [plainNode "Object3D" 5 (Some 50%nat) []]]]).

(** A tile whose mesh, below a scene node, has ten vertices and one
    material. *)
Definition sampleMesh : TilesUtils.Object3D nat nat :=
  TilesUtils.mkObject3D "Mesh" 3 None []
    (Some (TilesUtils.mkGeometry "BufferGeometry"
             (Some (TilesUtils.mkAttributes
                      (Some (TilesUtils.mkBufferAttribute 10
                               [0; 0; 0; 1; 1; 2; 2; 2; 2; 3]%Z))))
             []))
    (TilesUtils.Single (TilesUtils.Existing 7%nat)).

Definition sampleTile : TilesUtils.Object3D nat nat :=
  plainNode "Object3D" 3 (Some 30%nat) [plainNode "Scene" 3 None [sampleMesh]].

(** Order facts on dates are sent to linear arithmetic on [Q]. *)
Ltac dates_lra :=
  unfold halfDuration, Js.num, Qcle, Qclt, Qcdiv, Qcminus, Qcplus, Qcmult,
    Qcinv, Qcopp, Q2Qc in *;
  cbn [this] in *;
  repeat (setoid_rewrite Qred_correct);
  repeat match goal with H : _ |- _ => setoid_rewrite Qred_correct in H end;
  change (/ inject_Z 2)%Q with (1 # 2)%Q in *;
  lra.

(** Closed comparisons of dates are decided by evaluation. *)
Ltac decide_dates := apply (bool_decide_unpack _); vm_compute; exact I.

(** * Properties *)

(** ** Style names *)

Lemma append_cons x (a b : string) : String x a +:+ b = String x (a +:+ b).
Proof. reflexivity. Qed.

Lemma append_assoc (a b c : string) : (a +:+ b) +:+ c = a +:+ (b +:+ c).
Proof.
  induction a as [|x a IH]; [done |]. by rewrite !append_cons, IH.
Qed.

Lemma append_empty_r (a : string) : a +:+ "" = a.
Proof.
  induction a as [|x a IH]; [done |]. by rewrite append_cons, IH.
Qed.

Lemma prefix_append (a b : string) : String.prefix a (a +:+ b) = true.
Proof.
  induction a as [|x a IH]; [by destruct b |].
  rewrite append_cons. cbn [String.prefix].
  by destruct (Ascii.ascii_dec x x).
Qed.

Lemma Console_value_bind {A B} (m : Console.t A) (k : A -> Console.t B) :
  Console.value (m ≫= k) = Console.value (k (Console.value m)).
Proof.
  destruct m as [a w]. unfold mbind, Console_bind, Console.bind; simpl.
  by destruct (k a).
Qed.

Lemma Console_printed_bind {A B} (m : Console.t A) (k : A -> Console.t B) :
  Console.printed (m ≫= k)
  = Console.printed m ++ Console.printed (k (Console.value m)).
Proof.
  destruct m as [a w]. unfold mbind, Console_bind, Console.bind; simpl.
  by destruct (k a).
Qed.

Lemma getTransactionStyleName_primary transaction styleName :
  isPrimary transaction = true ->
  getTransactionStyleName transaction styleName
  = (Js.Str (type transaction), []).
Proof. destruct transaction; simpl; by intros ->. Qed.

Lemma getTransactionStyleName_aggregate transaction styleName :
  isPrimary transaction = false ->
  isAggregate transaction = true ->
  getTransactionStyleName transaction styleName
  = styleNameLoop (transactions transaction)
      (if String.eqb styleName "" then "aggregate" else styleName).
Proof.
  destruct transaction as [p a ty ts sd ed]; simpl; intros -> ->.
  generalize (if String.eqb styleName "" then "aggregate" else styleName).
  induction ts as [|nested ts IH]; intros acc; simpl; [done |].
  unfold mbind, Console_bind, Console.bind.
  destruct (getTransactionStyleName nested acc) as [r w]. by rewrite IH.
Qed.

Lemma getTransactionStyleName_malformed transaction styleName :
  isPrimary transaction = false ->
  isAggregate transaction = false ->
  getTransactionStyleName transaction styleName
  = (Js.Undefined, [NotPrimaryNorAggregate]).
Proof. destruct transaction; simpl; by intros -> ->. Qed.

Lemma styleNameLoop_value rest styleName :
  Console.value (styleNameLoop rest styleName)
  = Js.Str (styleName +:+ dashed (nestedNames rest styleName)).
Proof.
  revert styleName; induction rest as [|nested rest IH]; intros styleName.
  - simpl. by rewrite append_empty_r.
  - cbn [styleNameLoop nestedNames dashed foldr].
    rewrite Console_value_bind, IH. fold dashed.
    by rewrite !append_assoc.
Qed.

Lemma nestedNames_length rest styleName :
  length (nestedNames rest styleName) = length rest.
Proof.
  revert styleName; induction rest as [|nested rest IH]; intros styleName;
    simpl; [done | by rewrite IH].
Qed.

(** The [i]-th recursive call is made on the [i]-th nested transaction
    with the name built from the calls before it. *)
Lemma nestedNames_lookup rest styleName i nested :
  rest !! i = Some nested ->
  nestedNames rest styleName !! i
  = Some (Js.to_string (Console.value (getTransactionStyleName nested
            (styleName +:+ dashed (take i (nestedNames rest styleName)))))).
Proof.
  revert styleName i; induction rest as [|first rest IH];
    intros styleName [|i] Hi; simplify_eq/=.
  - by rewrite append_empty_r.
  - rewrite (IH _ _ Hi). by rewrite !append_assoc.
Qed.

Lemma styleNameLoop_primaries rest styleName :
  Forall (fun nested => isPrimary nested = true) rest ->
  styleNameLoop rest styleName
  = (Js.Str (styleName +:+ dashed (type <$> rest)), []).
Proof.
  intros Hall; revert styleName.
  induction Hall as [|nested rest Hp _ IH]; intros styleName.
  - simpl. by rewrite append_empty_r.
  - cbn [styleNameLoop fmap list_fmap dashed foldr].
    rewrite (getTransactionStyleName_primary _ _ Hp).
    unfold mbind, Console_bind, Console.bind. rewrite IH. simpl.
    by rewrite !append_assoc.
Qed.

(** C5. A primary transaction resolves to its type, whatever name has
    been accumulated.  An aggregate resolved from the empty name gives
    ["aggregate"] followed, for each nested transaction in order, by ["-"]
    and what the recursive call on that nested transaction returned;
    that call is made with the name built so far, and returns the type
    when the nested transaction is primary.  For an aggregate of a
    creation and a demolition the name is
    ["aggregate-creation-demolition"]. *)
Theorem getTransactionStyleName_resolution :
  (forall transaction styleName,
      isPrimary transaction = true ->
      getTransactionStyleName transaction styleName
      = (Js.Str (type transaction), []))
  /\ (forall transaction,
        isPrimary transaction = false ->
        isAggregate transaction = true ->
        let names := nestedNames (transactions transaction) "aggregate" in
        exists result,
          Console.value (getTransactionStyleName transaction "")
          = Js.Str result
          /\ result = "aggregate" +:+ dashed names
          /\ String.prefix "aggregate" result = true
          /\ length names = length (transactions transaction)
          /\ (forall i nested,
                transactions transaction !! i = Some nested ->
                names !! i
                = Some (Js.to_string (Console.value
                    (getTransactionStyleName nested
                       ("aggregate" +:+ dashed (take i names)))))
                /\ (isPrimary nested = true ->
                    names !! i = Some (type nested))))
  /\ getTransactionStyleName creationThenDemolition ""
     = (Js.Str "aggregate-creation-demolition", []).
Proof.
  split; [exact getTransactionStyleName_primary |].
  split; [| reflexivity].
  intros transaction Hp Ha names.
  exists ("aggregate" +:+ dashed names). split_and!.
  - rewrite (getTransactionStyleName_aggregate _ _ Hp Ha).
    change (String.eqb "" "") with true. cbv iota.
    apply styleNameLoop_value.
  - reflexivity.
  - apply prefix_append.
  - apply nestedNames_length.
  - intros i nested Hi. split; [by apply nestedNames_lookup |].
    intros Hnested. unfold names.
    rewrite (nestedNames_lookup _ _ _ _ Hi).
    by rewrite (getTransactionStyleName_primary _ _ Hnested).
Qed.

Lemma getTransactionStyleName_resolution_witness :
  getTransactionStyleName (primary "modification" 10 20) "aggregate-creation"
  = (Js.Str "modification", [])
  /\ Console.value (getTransactionStyleName nestedAggregate "")
     = Js.Str "aggregate-creation-aggregate-creation-modification".
Proof.
  destruct getTransactionStyleName_resolution as (Hprimary & Haggregate & _).
  split.
  - exact (Hprimary (primary "modification" 10 20) "aggregate-creation"
             eq_refl).
  - destruct (Haggregate nestedAggregate eq_refl eq_refl)
      as (result & Hvalue & Hresult & _).
    rewrite Hvalue, Hresult. reflexivity.
Defined.

(** C10. An aggregate whose nested transactions are all primary, of types
    [t1 ... tn], resolves from the empty name to ["aggregate-t1-...-tn"],
    and prints nothing. *)
Theorem getTransactionStyleName_flat_aggregate transaction :
  isPrimary transaction = false ->
  isAggregate transaction = true ->
  Forall (fun nested => isPrimary nested = true) (transactions transaction) ->
  getTransactionStyleName transaction ""
  = (Js.Str ("aggregate" +:+ dashed (type <$> transactions transaction)), []).
Proof.
  intros Hp Ha Hall.
  rewrite (getTransactionStyleName_aggregate _ _ Hp Ha).
  change (String.eqb "" "") with true. cbv iota.
  by apply styleNameLoop_primaries.
Qed.

Lemma getTransactionStyleName_flat_aggregate_witness :
  getTransactionStyleName creationThenDemolition ""
  = (Js.Str "aggregate-creation-demolition", []).
Proof.
  apply (getTransactionStyleName_flat_aggregate creationThenDemolition);
    [reflexivity | reflexivity |].
  repeat constructor.
Defined.

(** ** Culling *)

Lemma Js_le_true a b : Js.le a b = true <-> a <= b.
Proof. apply bool_decide_eq_true. Qed.

Lemma Js_lt_true a b : Js.lt a b = true <-> a < b.
Proof. apply bool_decide_eq_true. Qed.

Lemma exists_test_true t BT i :
  Js.ge_elem t (startDates BT !! i) && Js.le_elem t (endDates BT !! i) = true
  <-> withinLifespan t BT i.
Proof.
  unfold withinLifespan, Js.ge_elem, Js.le_elem, Js.ge.
  destruct (startDates BT !! i) as [s|], (endDates BT !! i) as [e|]; simpl;
    rewrite ?andb_true_iff, ?Js_le_true, ?andb_false_r;
    intuition discriminate.
Qed.

Lemma exists_test_false t BT i :
  ~ withinLifespan t BT i ->
  Js.ge_elem t (startDates BT !! i) && Js.le_elem t (endDates BT !! i) = false.
Proof.
  intros Hout. apply not_true_is_false. by rewrite exists_test_true.
Qed.

Lemma source_test_true t transaction :
  Js.gt t (startDate transaction) &&
  Js.le t (startDate transaction +
           (endDate transaction - startDate transaction) / Js.num 2) = true
  <-> inFirstHalf t transaction.
Proof.
  unfold inFirstHalf, halfDuration, Js.gt.
  by rewrite andb_true_iff, Js_lt_true, Js_le_true.
Qed.

Lemma dest_test_true t transaction :
  Js.gt t (startDate transaction +
           (endDate transaction - startDate transaction) / Js.num 2) &&
  Js.le t (endDate transaction) = true
  <-> inSecondHalf t transaction.
Proof.
  unfold inSecondHalf, halfDuration, Js.gt.
  by rewrite andb_true_iff, Js_lt_true, Js_le_true.
Qed.

Lemma cullAsSource_fires t transaction hasTransac states :
  inFirstHalf t transaction ->
  cullAsSource t (Some transaction) hasTransac states
  = (name ← getTransactionStyleName transaction "";
     mret (true, states ++ [name])).
Proof.
  intros Hin. unfold cullAsSource.
  by rewrite (proj2 (source_test_true _ _) Hin).
Qed.

Lemma cullAsSource_idle t transacAsSource hasTransac states :
  ~ sourceFires t transacAsSource ->
  cullAsSource t transacAsSource hasTransac states = mret (hasTransac, states).
Proof.
  intros Hout. destruct transacAsSource as [transaction|]; [|done].
  unfold cullAsSource.
  rewrite (not_true_is_false _ (fun H => Hout (proj1 (source_test_true _ _) H))).
  done.
Qed.

Lemma cullAsDest_fires t transaction hasTransac states :
  inSecondHalf t transaction ->
  cullAsDest t (Some transaction) hasTransac states
  = (name ← getTransactionStyleName transaction "";
     mret (true, states ++ [name])).
Proof.
  intros Hin. unfold cullAsDest.
  by rewrite (proj2 (dest_test_true _ _) Hin).
Qed.

Lemma cullAsDest_idle t transacAsDest hasTransac states :
  ~ destinationFires t transacAsDest ->
  cullAsDest t transacAsDest hasTransac states = mret (hasTransac, states).
Proof.
  intros Hout. destruct transacAsDest as [transaction|]; [|done].
  unfold cullAsDest.
  rewrite (not_true_is_false _ (fun H => Hout (proj1 (dest_test_true _ _) H))).
  done.
Qed.

Lemma cullAsSource_value t transacAsSource hasTransac states :
  Console.value (cullAsSource t transacAsSource hasTransac states)
  = (hasTransac || bool_decide (sourceFires t transacAsSource),
     states ++ match transacAsSource with
               | Some transaction =>
                 pushedBy (bool_decide (inFirstHalf t transaction)) transaction
               | None => []
               end).
Proof.
  destruct transacAsSource as [transaction|].
  - change (bool_decide (sourceFires t (Some transaction)))
      with (bool_decide (inFirstHalf t transaction)).
    unfold pushedBy. case_bool_decide as Hin.
    + rewrite (cullAsSource_fires _ _ _ _ Hin), Console_value_bind.
      by rewrite orb_true_r.
    + rewrite cullAsSource_idle by done. simpl.
      by rewrite orb_false_r, app_nil_r.
  - simpl. by rewrite orb_false_r, app_nil_r.
Qed.

Lemma cullAsDest_value t transacAsDest hasTransac states :
  Console.value (cullAsDest t transacAsDest hasTransac states)
  = (hasTransac || bool_decide (destinationFires t transacAsDest),
     states ++ match transacAsDest with
               | Some transaction =>
                 pushedBy (bool_decide (inSecondHalf t transaction)) transaction
               | None => []
               end).
Proof.
  destruct transacAsDest as [transaction|].
  - change (bool_decide (destinationFires t (Some transaction)))
      with (bool_decide (inSecondHalf t transaction)).
    unfold pushedBy. case_bool_decide as Hin.
    + rewrite (cullAsDest_fires _ _ _ _ Hin), Console_value_bind.
      by rewrite orb_true_r.
    + rewrite cullAsDest_idle by done. simpl.
      by rewrite orb_false_r, app_nil_r.
  - simpl. by rewrite orb_false_r, app_nil_r.
Qed.

(** The TRANSACTION CASE of one iteration, by which windows fire. *)
Lemma cullFeature_transaction t BT i featureId featureTransacs states :
  ~ withinLifespan t BT i ->
  featuresTransacs BT !! featureId = Some featureTransacs ->
  Console.value (cullFeature t BT i featureId states)
  = states
    ++ match asSource featureTransacs with
       | Some transaction =>
         pushedBy (bool_decide (inFirstHalf t transaction)) transaction
       | None => []
       end
    ++ match asDestination featureTransacs with
       | Some transaction =>
         pushedBy (bool_decide (inSecondHalf t transaction)) transaction
       | None => []
       end
    ++ (if bool_decide (sourceFires t (asSource featureTransacs)
                        \/ destinationFires t (asDestination featureTransacs))
        then [] else [Js.Str "hide"]).
Proof.
  intros Hout Hft. unfold cullFeature.
  rewrite (exists_test_false _ _ _ Hout), Hft.
  rewrite Console_value_bind, cullAsSource_value.
  rewrite Console_value_bind, cullAsDest_value.
  rewrite bool_decide_or. simpl.
  destruct (bool_decide (sourceFires t (asSource featureTransacs))
            || bool_decide (destinationFires t (asDestination featureTransacs)));
    simpl; by rewrite ?app_nil_r, <- ?app_assoc.
Qed.

Lemma cullFeature_exists t BT i featureId states :
  withinLifespan t BT i ->
  cullFeature t BT i featureId states
  = (states ++ [Js.Str "noTransaction"], []).
Proof.
  intros Hin. unfold cullFeature.
  by rewrite (proj2 (exists_test_true _ _ _) Hin).
Qed.

(** In exact arithmetic the look-ahead and look-back tests can be written
    with the dates moved to the other side.  In binary64 arithmetic they
    cannot: see [binary64_windows_round]. *)
Lemma creation_window t s : s <= t + halfVintage <-> s - halfVintage <= t.
Proof.
  rewrite (Qcle_minus_iff s), (Qcle_minus_iff (s - halfVintage)).
  by replace (t + halfVintage + - s) with (t + - (s - halfVintage)) by ring.
Qed.

Lemma demolition_window t e : t - halfVintage < e <-> t < e + halfVintage.
Proof.
  rewrite (Qclt_minus_iff (t - halfVintage)), (Qclt_minus_iff t).
  by replace (e + - (t - halfVintage)) with (e + halfVintage + - t) by ring.
Qed.

(** The rounded sum and difference do not commute with moving the
    [1.5] across the comparison.  At [currentTime = 0.1] and
    [startDate = 1.6] the test of the code passes,
    [0.1 + 1.5 >= 1.6], and [1.6 - 1.5 <= 0.1] does not; at
    [currentTime = 1.63] and [endDate = 0.13] the test of the code
    passes, [1.63 - 1.5 < 0.13], and [1.63 < 0.13 + 1.5] does not. *)
Lemma binary64_windows_round :
  PrimFloat.leb sixteenTenths (PrimFloat.add tenth 1.5) = true
  /\ PrimFloat.leb (PrimFloat.sub sixteenTenths 1.5) tenth = false
  /\ Vintage.binary64 tenth (Some sixteenTenths) (Some 5%float) = "creation"
  /\ PrimFloat.ltb (PrimFloat.sub oneSixtyThree 1.5) thirteenHundredths = true
  /\ PrimFloat.ltb oneSixtyThree (PrimFloat.add thirteenHundredths 1.5)
     = false
  /\ Vintage.binary64 oneSixtyThree (Some 0%float) (Some thirteenHundredths)
     = "demolition".
Proof. by vm_compute. Qed.

(** The far end of the look-back window is left out on binary64 numbers
    as on exact dates: [6.5 - 1.5 < 5] fails, with no rounding. *)
Lemma binary64_look_back_excludes_its_end :
  PrimFloat.sub 6.5 1.5 = 5%float
  /\ Vintage.binary64 6.5 (Some 0%float) (Some 5%float) = "hide".
Proof. by vm_compute. Qed.



(** An iteration only appends to the array it is given. *)
Lemma cullFeature_appends t BT i featureId states :
  Console.value (cullFeature t BT i featureId states)
  = states ++ Console.value (cullFeature t BT i featureId []).
Proof.
  destruct (decide (withinLifespan t BT i)) as [Hin|Hout].
  { by rewrite !cullFeature_exists. }
  destruct (featuresTransacs BT !! featureId) as [featureTransacs|] eqn:Hft.
  { by rewrite !(cullFeature_transaction _ _ _ _ _ _ Hout Hft). }
  unfold cullFeature.
  rewrite (exists_test_false _ _ _ Hout), Hft.
  by repeat case_match.
Qed.

(** An iteration pushes one label, or two. *)
Lemma cullFeature_pushes t BT i featureId :
  (1 <= length (Console.value (cullFeature t BT i featureId [])) <= 2)%nat.
Proof.
  destruct (decide (withinLifespan t BT i)) as [Hin|Hout].
  { rewrite cullFeature_exists by done. simpl; lia. }
  destruct (featuresTransacs BT !! featureId) as [[src dst]|] eqn:Hft.
  - rewrite (cullFeature_transaction _ _ _ _ _ _ Hout Hft). simpl.
    rewrite bool_decide_or.
    destruct src as [src|], dst as [dst|]; simpl; unfold pushedBy;
      repeat case_bool_decide; simpl; try lia; tauto.
  - unfold cullFeature.
    rewrite (exists_test_false _ _ _ Hout), Hft.
    repeat case_match; simpl; lia.
Qed.

Lemma cullFrom_appends t BT rest i states :
  Console.value (cullFrom t BT rest i states)
  = states ++ labelsFrom t BT rest i.
Proof.
  unfold labelsFrom. revert i states.
  induction rest as [|featureId rest IH]; intros i states; simpl.
  - by rewrite app_nil_r.
  - rewrite !Console_value_bind.
    rewrite IH, (IH _ (Console.value (cullFeature t BT i featureId []))).
    by rewrite cullFeature_appends, app_assoc.
Qed.

Lemma labelsFrom_cons t BT featureId rest i :
  labelsFrom t BT (featureId :: rest) i
  = Console.value (cullFeature t BT i featureId [])
    ++ labelsFrom t BT rest (S i).
Proof.
  unfold labelsFrom at 1. simpl.
  by rewrite Console_value_bind, cullFrom_appends.
Qed.

Lemma labelsFrom_app t BT before after i :
  labelsFrom t BT (before ++ after) i
  = labelsFrom t BT before i ++ labelsFrom t BT after (i + length before).
Proof.
  revert i; induction before as [|featureId before IH]; intros i.
  - simpl. by rewrite Nat.add_0_r.
  - simpl. rewrite !labelsFrom_cons, IH, <- app_assoc.
    by rewrite Nat.add_succ_comm.
Qed.

(** The array has at least one and at most two labels per feature. *)
Lemma labelsFrom_length t BT rest i :
  (length rest <= length (labelsFrom t BT rest i) <= 2 * length rest)%nat.
Proof.
  revert i; induction rest as [|featureId rest IH]; intros i.
  - simpl. lia.
  - rewrite labelsFrom_cons, length_app. simpl.
    pose proof (cullFeature_pushes t BT i featureId).
    specialize (IH (S i)). lia.
Qed.

(** When both windows fire the iteration pushes both names, the
    source's first. *)
Lemma cullFeature_both_fire t BT i featureId featureTransacs src dst states :
  ~ withinLifespan t BT i ->
  featuresTransacs BT !! featureId = Some featureTransacs ->
  asSource featureTransacs = Some src -> inFirstHalf t src ->
  asDestination featureTransacs = Some dst -> inSecondHalf t dst ->
  Console.value (cullFeature t BT i featureId states)
  = states ++ [Console.value (getTransactionStyleName src "");
               Console.value (getTransactionStyleName dst "")].
Proof.
  intros Hout Hft Hsrc Hfirst Hdst Hsecond.
  rewrite (cullFeature_transaction _ _ _ _ _ _ Hout Hft), Hsrc, Hdst.
  unfold pushedBy. simpl.
  rewrite !bool_decide_eq_true_2 by tauto. done.
Qed.

(** C1. [culling] returns between one and two labels per entry of
    [featureIds], and not always one: for a single feature that is not
    alive at time 4, is the source of a modification on [[0, 10]] and the
    destination of a creation on [[0, 6]], both windows contain 4 and the
    result holds two labels. *)
Theorem culling_two_labels_for_one_feature :
  (forall t BT,
      (length (featureIds BT) <= length (Console.value (culling t BT))
       <= 2 * length (featureIds BT))%nat)
  /\ featureIds overlappingTable = ["A"]
  /\ culling (Js.num 4) overlappingTable
     = ([Js.Str "modification"; Js.Str "creation"], []).
Proof.
  split; [intros t BT; apply labelsFrom_length |].
  split; [reflexivity | by vm_compute].
Qed.




(** C3. A feature alive at the current time gets ['noTransaction'],
    whatever [featuresTransacs] holds for it: its iteration pushes that
    one label and prints nothing, and in the array returned by [culling]
    the label comes right after the labels of the features before it, so
    at index [i] when each of those pushed one label. *)
Theorem culling_existing_feature t BT i featureId s e :
  featureIds BT !! i = Some featureId ->
  startDates BT !! i = Some s ->
  endDates BT !! i = Some e ->
  s <= t -> t <= e ->
  (forall states,
      cullFeature t BT i featureId states
      = (states ++ [Js.Str "noTransaction"], []))
  /\ Console.value (culling t BT)
     = labelsFrom t BT (take i (featureIds BT)) 0
       ++ Js.Str "noTransaction"
       :: labelsFrom t BT (drop (S i) (featureIds BT)) (S i)
  /\ (length (labelsFrom t BT (take i (featureIds BT)) 0) = i ->
      Console.value (culling t BT) !! i = Some (Js.Str "noTransaction")).
Proof.
  intros Hid Hs He Hst Hte.
  assert (withinLifespan t BT i) as Hin.
  { unfold withinLifespan. by rewrite Hs, He. }
  assert (Console.value (culling t BT)
          = labelsFrom t BT (take i (featureIds BT)) 0
            ++ Js.Str "noTransaction"
            :: labelsFrom t BT (drop (S i) (featureIds BT)) (S i)) as Hsplit.
  { unfold culling. fold (labelsFrom t BT (featureIds BT) 0).
    rewrite <- (take_drop_middle _ _ _ Hid) at 1.
    rewrite labelsFrom_app, labelsFrom_cons.
    rewrite length_take_le by (apply Nat.lt_le_incl, (lookup_lt_Some _ _ _ Hid)).
    by rewrite (cullFeature_exists _ _ _ _ _ Hin). }
  split_and!.
  - intros states. by apply cullFeature_exists.
  - exact Hsplit.
  - intros Hlen. rewrite Hsplit.
    rewrite lookup_app_r by lia.
    by rewrite Hlen, Nat.sub_diag.
Qed.

Lemma culling_existing_feature_witness :
  Console.value (culling (Js.num 3) lifespan05) !! 0%nat
  = Some (Js.Str "noTransaction").
Proof.
  refine (proj2 (proj2 (culling_existing_feature (Js.num 3) lifespan05 0 "A"
            (Js.num 0) (Js.num 5) eq_refl eq_refl eq_refl _ _)) eq_refl);
    decide_dates.
Defined.




(** ** The cache and the tiles manager *)

Lemma withEffects_nil this : withEffects this [] = this.
Proof. destruct this. unfold withEffects; simpl. by rewrite app_nil_r. Qed.

Lemma withEffects_app this first second :
  withEffects (withEffects this first) second
  = withEffects this (first ++ second).
Proof. unfold withEffects; simpl. by rewrite app_assoc. Qed.

Lemma computeFeaturesStatesWith_root cullingMethod this :
  computeFeaturesStatesWith cullingMethod 0 this = (EmptyObject, this).
Proof. reflexivity. Qed.

(** A hit: the stored array is returned, [this] is left as it was, and
    the culling method plays no part. *)
Lemma computeFeaturesStatesWith_hit cullingMethod tileId this displayStates :
  tileId <> 0%Z ->
  cachedStates this tileId = Some displayStates ->
  computeFeaturesStatesWith cullingMethod tileId this
  = (StatesArray displayStates, this).
Proof.
  intros Hroot Hhit. unfold computeFeaturesStatesWith, cachedStates in *.
  rewrite bool_decide_eq_false_2 by done.
  unfold mbind, Method_bind, Method.bind, Method.this in *.
  by rewrite Hhit.
Qed.

(** A miss on a loaded tile: culling runs once, its warnings are
    replayed, and the array is stored under the current time and the
    tile. *)
Lemma computeFeaturesStatesWith_miss cullingMethod tileId this tileTemporalBT :
  tileId <> 0%Z ->
  cachedStates this tileId = None ->
  temporalBatchTables this !! tileId = Some tileTemporalBT ->
  let result := cullingMethod (currentTime this) tileTemporalBT in
  computeFeaturesStatesWith cullingMethod tileId this
  = (StatesArray (Console.value result),
     mkTemporalProvider (temporalBatchTables this) (currentTime this)
       (alter (insert tileId (Console.value result)) (currentTime this)
          (if bool_decide (is_Some
                (datedTilesDisplayStates this !! currentTime this))
           then datedTilesDisplayStates this
           else <[currentTime this := ∅]> (datedTilesDisplayStates this)))
       (effects this ++ (ConsoleWarn <$> Console.printed result))).
Proof.
  intros Hroot Hmiss Hbt result.
  unfold computeFeaturesStatesWith, cachedStates in *.
  rewrite bool_decide_eq_false_2 by done.
  unfold mbind, Method_bind, Method.bind, Method.this in *.
  rewrite Hmiss, Hbt.
  by case_bool_decide.
Qed.

Lemma computeFeaturesStatesWith_unloaded cullingMethod tileId this :
  tileId <> 0%Z ->
  cachedStates this tileId = None ->
  temporalBatchTables this !! tileId = None ->
  computeFeaturesStatesWith cullingMethod tileId this
  = (EmptyObject, withEffects this [ConsoleWarn (BatchTableNotLoaded tileId)]).
Proof.
  intros Hroot Hmiss Hbt. unfold computeFeaturesStatesWith, cachedStates in *.
  rewrite bool_decide_eq_false_2 by done.
  unfold mbind, Method_bind, Method.bind, Method.this in *.
  by rewrite Hmiss, Hbt.
Qed.

(** After a miss on a loaded tile the entry is there. *)
Lemma cachedStates_after_miss tiles t tileId displayStates batchTables log :
  cachedStates
    (mkTemporalProvider batchTables t
       (alter (insert tileId displayStates) t
          (if bool_decide (is_Some (tiles !! t)) then tiles
           else <[t := ∅]> tiles))
       log) tileId
  = Some displayStates.
Proof.
  unfold cachedStates; simpl. rewrite lookup_alter_eq.
  case_bool_decide as Hhas.
  - destruct Hhas as [inner ->]. simpl. apply lookup_insert_eq.
  - rewrite lookup_insert_eq. simpl. apply lookup_insert_eq.
Qed.

Lemma styleFeature_effects isStyleRegistered tileId i featureStyleName this :
  styleFeature isStyleRegistered tileId i featureStyleName this
  = (tt, withEffects this
           (styleRequest isStyleRegistered tileId i featureStyleName)).
Proof.
  unfold styleFeature, styleRequest.
  destruct (isStyleRegistered featureStyleName); [done |].
  unfold mbind, Method_bind, Method.bind, Method.warn, Method.perform; simpl.
  unfold withEffects; simpl. by rewrite <- app_assoc.
Qed.

Lemma styleFrom_effects isStyleRegistered tileId rest i this :
  styleFrom isStyleRegistered tileId rest i this
  = (tt, withEffects this
           (concat (imap (fun k => styleRequest isStyleRegistered tileId (i + k))
                      rest))).
Proof.
  revert i this; induction rest as [|featureStyleName rest IH]; intros i this.
  - simpl. by rewrite withEffects_nil.
  - cbn [styleFrom imap concat].
    unfold mbind, Method_bind, Method.bind.
    rewrite styleFeature_effects, IH, withEffects_app, Nat.add_0_r.
    do 4 f_equal. apply imap_ext. intros k label _. simpl.
    by rewrite Nat.add_succ_r.
Qed.

(** C6. For the root tile, 0, [computeFeaturesStates] returns the empty
    [{}], over which the caller's loop makes no iteration, and leaves
    [this] as it was: whatever the time, the cache, the batch tables and
    the culling method are. *)
Theorem computeFeaturesStates_root cullingMethod this :
  computeFeaturesStatesWith cullingMethod 0 this = (EmptyObject, this)
  /\ computeFeaturesStates 0 this = (EmptyObject, this)
  /\ statesElements EmptyObject = [].
Proof.
  split_and!; [apply computeFeaturesStatesWith_root .. | reflexivity].
Qed.

(** C8. For a tile other than the root with no batch table loaded and no
    entry in the cache for the current time, [computeFeaturesStates]
    warns once, returns the empty [{}] and leaves the cache as it was;
    the culling method has no part in the outcome. *)
Theorem computeFeaturesStates_unloaded cullingMethod tileId this :
  tileId <> 0%Z ->
  temporalBatchTables this !! tileId = None ->
  cachedStates this tileId = None ->
  computeFeaturesStatesWith cullingMethod tileId this
  = (EmptyObject, withEffects this [ConsoleWarn (BatchTableNotLoaded tileId)])
  /\ computeFeaturesStates tileId this
     = (EmptyObject,
        withEffects this [ConsoleWarn (BatchTableNotLoaded tileId)])
  /\ statesElements EmptyObject = [].
Proof.
  intros Hroot Hbt Hmiss.
  split_and!; [| |done]; by apply computeFeaturesStatesWith_unloaded.
Qed.

Lemma computeFeaturesStates_unloaded_witness :
  computeFeaturesStates 7 freshProvider
  = (EmptyObject,
     withEffects freshProvider [ConsoleWarn (BatchTableNotLoaded 7)]).
Proof.
  refine (proj1 (computeFeaturesStates_unloaded culling 7 freshProvider _ _ _));
    by vm_compute.
Defined.

(** C7. Two consecutive calls of [computeFeaturesStates] for the same
    tile at the same current time return the same value.  When the tile
    is not the root and its batch table is loaded or its states are
    cached, the first call returns an array that is in the cache
    afterwards.  Once the cache has an entry, a call returns it and leaves
    [this] as it was, whatever the culling method is. *)
Theorem computeFeaturesStates_twice tileId this first this1 second this2 :
  computeFeaturesStates tileId this = (first, this1) ->
  computeFeaturesStates tileId this1 = (second, this2) ->
  second = first
  /\ currentTime this1 = currentTime this
  /\ (tileId <> 0%Z ->
      is_Some (temporalBatchTables this !! tileId)
      \/ is_Some (cachedStates this tileId) ->
      exists displayStates,
        first = StatesArray displayStates
        /\ cachedStates this1 tileId = Some displayStates)
  /\ (forall displayStates,
        tileId <> 0%Z ->
        cachedStates this1 tileId = Some displayStates ->
        second = StatesArray displayStates
        /\ this2 = this1
        /\ forall cullingMethod,
            computeFeaturesStatesWith cullingMethod tileId this1
            = (StatesArray displayStates, this1)).
Proof.
  unfold computeFeaturesStates. intros Hfirst Hsecond.
  assert (forall displayStates,
        tileId <> 0%Z ->
        cachedStates this1 tileId = Some displayStates ->
        second = StatesArray displayStates
        /\ this2 = this1
        /\ forall cullingMethod,
            computeFeaturesStatesWith cullingMethod tileId this1
            = (StatesArray displayStates, this1)) as Hhits.
  { intros displayStates Hroot Hhit.
    rewrite (computeFeaturesStatesWith_hit _ _ _ _ Hroot Hhit) in Hsecond.
    simplify_eq. split_and!; [done | done |].
    intros cullingMethod. by apply computeFeaturesStatesWith_hit. }
  destruct (decide (tileId = 0%Z)) as [->|Hroot].
  { rewrite computeFeaturesStatesWith_root in Hfirst, Hsecond. simplify_eq.
    split_and!; [done | done | done | exact Hhits]. }
  destruct (cachedStates this tileId) as [displayStates|] eqn:Hcache.
  { rewrite (computeFeaturesStatesWith_hit _ _ _ _ Hroot Hcache) in Hfirst.
    simplify_eq.
    destruct (Hhits _ Hroot Hcache) as (-> & _ & _).
    split_and!; [done | done | | exact Hhits].
    intros _ _. by exists displayStates. }
  destruct (temporalBatchTables this !! tileId) as [tileTemporalBT|] eqn:Hbt.
  - rewrite (computeFeaturesStatesWith_miss _ _ _ _ Hroot Hcache Hbt) in Hfirst.
    simplify_eq.
    pose proof (cachedStates_after_miss (datedTilesDisplayStates this)
      (currentTime this) tileId
      (Console.value (culling (currentTime this) tileTemporalBT))
      (temporalBatchTables this)
      (effects this
       ++ (ConsoleWarn <$>
           Console.printed (culling (currentTime this) tileTemporalBT))))
      as Hstored.
    destruct (Hhits _ Hroot Hstored) as (-> & _ & _).
    split_and!; [done | done | | exact Hhits].
    intros _ _. eexists. split; [done | exact Hstored].
  - rewrite (computeFeaturesStatesWith_unloaded _ _ _ Hroot Hcache Hbt)
      in Hfirst.
    simplify_eq.
    rewrite computeFeaturesStatesWith_unloaded in Hsecond by done.
    simplify_eq.
    split_and!; [done | done | | exact Hhits].
    intros _ [[? ?]|[? ?]]; congruence.
Qed.

Lemma computeFeaturesStates_twice_witness :
  fst (computeFeaturesStates 3 (snd (computeFeaturesStates 3 freshProvider)))
  = fst (computeFeaturesStates 3 freshProvider).
Proof.
  refine (proj1 (computeFeaturesStates_twice 3 freshProvider
            (fst (computeFeaturesStates 3 freshProvider))
            (snd (computeFeaturesStates 3 freshProvider))
            (fst (computeFeaturesStates 3
                    (snd (computeFeaturesStates 3 freshProvider))))
            (snd (computeFeaturesStates 3
                    (snd (computeFeaturesStates 3 freshProvider))))
            _ _)); by vm_compute.
Defined.

(** C9. [computeTileState] takes the labels from [computeFeaturesStates]
    and, for each index of the returned array in order, styles the city
    object of that tile and index with the label when the label is
    registered, and otherwise warns and styles it with ['noTransaction'];
    it does nothing more. *)
Theorem computeTileState_requests
    isStyleRegistered tileContent this featuresStates this1 :
  computeFeaturesStates (tileId tileContent) this = (featuresStates, this1) ->
  computeTileState isStyleRegistered tileContent this
  = (tt, withEffects this1
           (concat (imap (styleRequest isStyleRegistered (tileId tileContent))
                      (statesElements featuresStates))))
  /\ (forall i featureStyleName,
        statesElements featuresStates !! i = Some featureStyleName ->
        styleRequest isStyleRegistered (tileId tileContent) i featureStyleName
        = if isStyleRegistered featureStyleName
          then [SetStyle (mkCityObjectID (tileId tileContent) i)
                  featureStyleName]
          else [ConsoleWarn (StyleNotRegistered featureStyleName);
                SetStyle (mkCityObjectID (tileId tileContent) i)
                  (Js.Str "noTransaction")]).
Proof.
  intros Hstates. split; [| done].
  unfold computeTileState, computeTileStateWith.
  unfold mbind, Method_bind, Method.bind.
  fold computeFeaturesStates. rewrite Hstates.
  by rewrite styleFrom_effects.
Qed.

Lemma computeTileState_requests_witness :
  effects (snd (computeTileState (isRegisteredIn initTransactionsStyles)
                  (mkTileContent 3) freshProvider))
  = [SetStyle (mkCityObjectID 3 0) (Js.Str "noTransaction");
     ConsoleWarn (StyleNotRegistered (Js.Str "aggregate-modification"));
     SetStyle (mkCityObjectID 3 1) (Js.Str "noTransaction")].
Proof.
  rewrite (proj1 (computeTileState_requests
             (isRegisteredIn initTransactionsStyles) (mkTileContent 3)
             freshProvider
             (fst (computeFeaturesStates 3 freshProvider))
             (snd (computeFeaturesStates 3 freshProvider))
             ltac:(by vm_compute))).
  by vm_compute.
Defined.

(** * Further properties *)

(** ** Dates *)





(** ** One label per feature *)

Lemma cullFeature_one_or_two t BT i featureId :
  (pushesTwice t BT i featureId
   /\ length (Console.value (cullFeature t BT i featureId [])) = 2%nat)
  \/ (~ pushesTwice t BT i featureId
      /\ exists label,
          Console.value (cullFeature t BT i featureId []) = [label]).
Proof.
  unfold pushesTwice.
  destruct (decide (withinLifespan t BT i)) as [Hin|Hout].
  { right. split; [tauto |]. rewrite cullFeature_exists by done. by eexists. }
  destruct (featuresTransacs BT !! featureId) as [[src dst]|] eqn:Hft.
  - rewrite (cullFeature_transaction _ _ _ _ _ _ Hout Hft).
    rewrite bool_decide_or. unfold pushedBy.
    destruct src as [src|], dst as [dst|];
      cbn [asSource asDestination sourceFires destinationFires];
      repeat case_bool_decide; cbn [orb app];
      first
        [ left; split; [split; [done |] | done];
          eexists; split_and!; done
        | right; split; [| by eexists];
          intros (_ & ft & ? & ? & ?); simplify_eq/=; tauto ].
  - right. split; [intros (_ & ft & ? & _); congruence |].
    unfold cullFeature.
    rewrite (exists_test_false _ _ _ Hout), Hft.
    repeat case_match; by eexists.
Qed.

Lemma labelsFrom_length_iff t BT rest i :
  length (labelsFrom t BT rest i) = length rest
  <-> forall k featureId,
        rest !! k = Some featureId -> ~ pushesTwice t BT (i + k) featureId.
Proof.
  revert i; induction rest as [|first rest IH]; intros i.
  { split; [intros _ k featureId Hk; by destruct k | done]. }
  rewrite labelsFrom_cons, length_app. cbn [length].
  pose proof (labelsFrom_length t BT rest (S i)) as Hbounds.
  destruct (cullFeature_one_or_two t BT i first)
    as [[Htwice Hlen]|[Hone [label Hlabel]]].
  - rewrite Hlen. split; [lia |].
    intros Hnone. destruct (Hnone 0%nat first eq_refl).
    by rewrite Nat.add_0_r.
  - rewrite Hlabel. cbn [length]. split.
    + intros Hlen [|k] featureId Hk; simplify_eq/=.
      * by rewrite Nat.add_0_r.
      * rewrite Nat.add_succ_r.
        apply (proj1 (IH (S i)) ltac:(lia) k featureId Hk).
    + intros Hnone. f_equal. apply IH. intros k featureId Hk.
      specialize (Hnone (S k) featureId Hk).
      by rewrite Nat.add_succ_r in Hnone.
Qed.




(** X3. When, for every feature that has both, the transaction it is the
    destination of ends no later than the transaction it is the source of
    starts, [culling] returns exactly one label per entry of [featureIds]
    at every time. *)
Theorem culling_consistent_table BT :
  (forall featureId featureTransacs src dst,
      featuresTransacs BT !! featureId = Some featureTransacs ->
      asSource featureTransacs = Some src ->
      asDestination featureTransacs = Some dst ->
      endDate dst <= startDate src) ->
  forall t, length (Console.value (culling t BT)) = length (featureIds BT).
Proof.
  intros Hordered t.
  unfold culling. fold (labelsFrom t BT (featureIds BT) 0).
  apply labelsFrom_length_iff.
  intros k featureId _ (_ & featureTransacs & Hft & Hsource & Hdest).
  destruct (asSource featureTransacs) as [src|] eqn:Hsrc; [| done].
  destruct (asDestination featureTransacs) as [dst|] eqn:Hdst; [| done].
  pose proof (Hordered _ _ _ _ Hft Hsrc Hdst) as Hle.
  destruct Hsource as [Hstart _], Hdest as [_ Hend].
  dates_lra.
Qed.

Lemma culling_consistent_table_witness :
  length (Console.value (culling (Js.num 8) orderedTable)) = 1%nat.
Proof.
  apply (culling_consistent_table orderedTable).
  intros featureId featureTransacs src dst Hft Hsrc Hdst.
  unfold orderedTable in Hft. cbn [featuresTransacs] in Hft.
  apply lookup_singleton_Some in Hft as [_ <-].
  cbn in Hsrc, Hdst. simplify_eq. decide_dates.
Defined.

(** ** Tables without transactions *)

Lemma cullFeature_no_record t BT i featureId :
  featuresTransacs BT !! featureId = None ->
  exists label,
    label ∈ ownLabels
    /\ (forall states,
          cullFeature t BT i featureId states = (states ++ [label], []))
    /\ (startDates BT !! i = None -> endDates BT !! i = None ->
        label = Js.Str "hide").
Proof.
  intros Hnone. unfold cullFeature. rewrite Hnone.
  destruct (startDates BT !! i) as [s|], (endDates BT !! i) as [e|];
    cbn [Js.ge_elem Js.le_elem Js.lt_elem Js.gt_elem andb];
    rewrite ?andb_false_r;
    repeat case_match;
    eexists; (split_and!; [| done | done || (by intros; simplify_eq)]);
    unfold ownLabels;
    repeat first [apply list_elem_of_here | apply list_elem_of_further].
Qed.

Lemma cullFrom_no_record t BT rest i states :
  (forall featureId, featureId ∈ rest ->
                     featuresTransacs BT !! featureId = None) ->
  exists labels,
    cullFrom t BT rest i states = (states ++ labels, [])
    /\ length labels = length rest
    /\ Forall (fun label => label ∈ ownLabels) labels
    /\ (forall k, (k < length rest)%nat ->
          startDates BT !! (i + k)%nat = None ->
          endDates BT !! (i + k)%nat = None ->
          labels !! k = Some (Js.Str "hide")).
Proof.
  revert i states; induction rest as [|first rest IH]; intros i states Hnone.
  { exists []. cbn. rewrite app_nil_r. split_and!; [done | done | done |].
    intros k Hk. cbn in Hk. lia. }
  destruct (cullFeature_no_record t BT i first)
    as (label & Hown & Hpush & Hhide).
  { apply Hnone, list_elem_of_here. }
  destruct (IH (S i) (states ++ [label]))
    as (labels & Hrest & Hlen & Hall & Hhidden).
  { intros featureId Hin. by apply Hnone, list_elem_of_further. }
  exists (label :: labels). split_and!.
  - cbn [cullFrom]. rewrite Hpush.
    unfold mbind, Console_bind, Console.bind. rewrite Hrest.
    by rewrite <- app_assoc.
  - cbn. by rewrite Hlen.
  - by constructor.
  - intros [|k] Hk Hs He.
    + rewrite Nat.add_0_r in Hs, He. cbn. f_equal. by apply Hhide.
    + cbn. apply Hhidden; [cbn in Hk; lia | |];
        by replace (S i + k)%nat with (i + S k)%nat by lia.
Qed.

(** X4. For a batch table in which no feature has a transaction record,
    [culling] prints nothing and returns exactly one label per entry of
    [featureIds], each of them ['noTransaction'], ['creation'],
    ['demolition'] or ['hide']; a feature whose index is beyond both date
    arrays gets ['hide']. *)
Theorem culling_without_transactions t BT :
  (forall featureId, featureId ∈ featureIds BT ->
                     featuresTransacs BT !! featureId = None) ->
  exists labels,
    culling t BT = (labels, [])
    /\ length labels = length (featureIds BT)
    /\ Forall (fun label => label ∈ ownLabels) labels
    /\ (forall i, (i < length (featureIds BT))%nat ->
          startDates BT !! i = None ->
          endDates BT !! i = None ->
          labels !! i = Some (Js.Str "hide")).
Proof.
  intros Hnone.
  destruct (cullFrom_no_record t BT (featureIds BT) 0 [] Hnone)
    as (labels & Hrun & Hrest).
  exists labels. by split.
Qed.

Lemma culling_without_transactions_witness :
  exists labels,
    culling (Js.num 6) lifespan05 = (labels, [])
    /\ length labels = 1%nat.
Proof.
  destruct (culling_without_transactions (Js.num 6) lifespan05)
    as (labels & Hrun & Hlen & _).
  - intros featureId _. apply lookup_empty.
  - exists labels. by split.
Defined.

(** ** More on style names *)

(** Induction on a transaction with the nested transactions as
    hypotheses. *)
Lemma Transaction_nested_ind (P : Transaction -> Prop) :
  (forall p a ty nested s e,
      Forall P nested -> P (mkTransaction p a ty nested s e)) ->
  forall transaction, P transaction.
Proof.
  intros Hstep. fix IH 1. intros [p a ty nested s e]. apply Hstep.
  induction nested as [|first nested IHnested]; constructor;
    [apply IH | exact IHnested].
Qed.

Lemma wellFormed_unfold p a ty nested s e :
  wellFormed (mkTransaction p a ty nested s e)
  = p || (a && forallb wellFormed nested).
Proof. reflexivity. Qed.

Lemma styleNameLoop_wellFormed rest :
  Forall (fun nested =>
            wellFormed nested = true ->
            forall styleName, exists name,
              getTransactionStyleName nested styleName = (Js.Str name, []))
         rest ->
  forallb wellFormed rest = true ->
  forall styleName, exists name,
    styleNameLoop rest styleName = (Js.Str name, []).
Proof.
  induction 1 as [|first rest Hfirst _ IH]; intros Hall styleName.
  { by eexists. }
  cbn [forallb] in Hall. apply andb_true_iff in Hall as [Hwf Hrest].
  destruct (Hfirst Hwf styleName) as [r Hr].
  destruct (IH Hrest (styleName +:+ "-" +:+ r)) as [name Hname].
  exists name. cbn [styleNameLoop].
  unfold mbind, Console_bind, Console.bind. rewrite Hr.
  cbn [Js.to_string]. by rewrite Hname.
Qed.

Lemma getTransactionStyleName_string transaction :
  wellFormed transaction = true ->
  forall styleName, exists name,
    getTransactionStyleName transaction styleName = (Js.Str name, []).
Proof.
  induction transaction as [p a ty nested s e IH] using Transaction_nested_ind.
  rewrite wellFormed_unfold. intros Hwf styleName.
  destruct p.
  { exists ty. by apply getTransactionStyleName_primary. }
  destruct a; [| done]. cbn [orb andb] in Hwf.
  rewrite getTransactionStyleName_aggregate by done.
  by apply styleNameLoop_wellFormed.
Qed.

(** X5. The label returned is [undefined] exactly when the transaction
    itself is neither primary nor aggregate: an aggregate yields a
    string even when a transaction nested in it is malformed. *)
Theorem getTransactionStyleName_undefined transaction styleName :
  Console.value (getTransactionStyleName transaction styleName)
  = Js.Undefined
  <-> isPrimary transaction = false /\ isAggregate transaction = false.
Proof.
  destruct (isPrimary transaction) eqn:Hp.
  { rewrite getTransactionStyleName_primary by done.
    split; [done | by intros [? _]]. }
  destruct (isAggregate transaction) eqn:Ha.
  { rewrite getTransactionStyleName_aggregate, styleNameLoop_value by done.
    split; [done | by intros [_ ?]]. }
  by rewrite getTransactionStyleName_malformed.
Qed.

Lemma getTransactionStyleName_undefined_witness :
  Console.value
    (getTransactionStyleName
       (mkTransaction false false "" [] (Js.num 0) (Js.num 1)) "aggregate")
  = Js.Undefined.
Proof.
  by apply (proj2 (getTransactionStyleName_undefined
                     (mkTransaction false false "" [] (Js.num 0) (Js.num 1))
                     "aggregate")).
Defined.

Lemma append_aggregate_not_empty tail :
  String.eqb ("aggregate" +:+ tail) "" = false.
Proof. reflexivity. Qed.

(** X6. No name of an aggregate resolved from the empty name is among
    the styles that [initTransactionsStyles] registers, since it starts
    with ["aggregate"]. *)
Theorem aggregate_name_not_registered transaction :
  isPrimary transaction = false ->
  isAggregate transaction = true ->
  isRegisteredIn initTransactionsStyles
    (Console.value (getTransactionStyleName transaction ""))
  = false.
Proof.
  intros Hp Ha.
  rewrite getTransactionStyleName_aggregate, styleNameLoop_value by done.
  change (String.eqb "" "") with true. cbv iota.
  generalize (dashed (nestedNames (transactions transaction) "aggregate")).
  intros tail. unfold isRegisteredIn, initTransactionsStyles.
  apply bool_decide_eq_false_2. rewrite !append_cons.
  intros Hin.
  repeat (apply elem_of_cons in Hin as [Heq|Hin]; [discriminate Heq |]).
  by apply elem_of_nil in Hin.
Qed.

Lemma aggregate_name_not_registered_witness :
  isRegisteredIn initTransactionsStyles
    (Console.value (getTransactionStyleName creationThenDemolition ""))
  = false.
Proof.
  apply (aggregate_name_not_registered creationThenDemolition);
    reflexivity.
Defined.

Lemma dashed_app first second :
  dashed (first ++ second) = dashed first +:+ dashed second.
Proof.
  induction first as [|name first IH]; [done |].
  cbn [app dashed foldr]. fold (dashed (first ++ second)). fold (dashed first).
  by rewrite IH, !append_assoc.
Qed.

Lemma styleNameLoop_after_primaries before rest styleName :
  Forall (fun nested => isPrimary nested = true) before ->
  styleNameLoop (before ++ rest) styleName
  = styleNameLoop rest (styleName +:+ dashed (type <$> before)).
Proof.
  intros Hall; revert styleName.
  induction Hall as [|nested before Hp _ IH]; intros styleName.
  - cbn. by rewrite append_empty_r.
  - cbn [app styleNameLoop fmap list_fmap dashed foldr].
    rewrite (getTransactionStyleName_primary _ _ Hp).
    unfold mbind, Console_bind, Console.bind.
    cbn [Js.to_string]. rewrite IH.
    fold (dashed (type <$> before)). rewrite !append_assoc.
    by destruct (styleNameLoop rest _).
Qed.

(** X7. The name accumulated so far is passed down and not reset: an
    aggregate of primaries nested in an aggregate, after primaries of
    types [before] and followed by primaries of types [after], makes the
    outer name, with [p = "aggregate" + dashed before],
    [p + "-" + p + dashed inner + dashed after]: the name built so far
    occurs twice, and the inner aggregate adds no ["aggregate"] of its
    own. *)
Theorem nested_aggregate_repeats_name outer inner before after :
  isPrimary outer = false -> isAggregate outer = true ->
  isPrimary inner = false -> isAggregate inner = true ->
  transactions outer = before ++ inner :: after ->
  Forall (fun nested => isPrimary nested = true) before ->
  Forall (fun nested => isPrimary nested = true) (transactions inner) ->
  Forall (fun nested => isPrimary nested = true) after ->
  let p := "aggregate" +:+ dashed (type <$> before) in
  getTransactionStyleName outer ""
  = (Js.Str (p +:+ "-" +:+ p +:+ dashed (type <$> transactions inner)
             +:+ dashed (type <$> after)), []).
Proof.
  intros Hop Hoa Hip Hia Hnested Hbefore Hinner Hafter p. subst p.
  rewrite (getTransactionStyleName_aggregate _ _ Hop Hoa), Hnested.
  change (String.eqb "" "") with true. cbv iota.
  rewrite (styleNameLoop_after_primaries _ _ _ Hbefore).
  cbn [styleNameLoop].
  rewrite (getTransactionStyleName_aggregate _ _ Hip Hia).
  rewrite append_aggregate_not_empty.
  rewrite (styleNameLoop_primaries _ _ Hinner).
  unfold mbind, Console_bind, Console.bind. cbn [Js.to_string].
  rewrite (styleNameLoop_primaries _ _ Hafter). cbn [app].
  by rewrite !append_assoc.
Qed.

Lemma nested_aggregate_repeats_name_witness :
  getTransactionStyleName nestedAggregate ""
  = (Js.Str "aggregate-creation-aggregate-creation-modification", []).
Proof.
  apply (nested_aggregate_repeats_name nestedAggregate
           (aggregate [primary "modification" 10 20] 10 20)
           [primary "creation" 10 20] []);
    try reflexivity; repeat constructor.
Defined.

(** ** Well-formed tables *)

Lemma cullAsSource_wellFormed t transacAsSource hasTransac states :
  (forall transaction,
      transacAsSource = Some transaction -> wellFormed transaction = true) ->
  exists hasTransac' pushed,
    cullAsSource t transacAsSource hasTransac states
    = ((hasTransac', states ++ pushed), [])
    /\ Forall (fun label => label <> Js.Undefined) pushed.
Proof.
  intros Hwf.
  destruct (decide (sourceFires t transacAsSource)) as [Hfires|Hidle].
  - destruct transacAsSource as [transaction|]; [| done].
    destruct (getTransactionStyleName_string transaction (Hwf _ eq_refl) "")
      as [name Hname].
    exists true, [Js.Str name].
    rewrite (cullAsSource_fires _ _ _ _ Hfires), Hname.
    split; [done | by repeat constructor].
  - exists hasTransac, []. rewrite cullAsSource_idle by done.
    by rewrite app_nil_r.
Qed.

Lemma cullAsDest_wellFormed t transacAsDest hasTransac states :
  (forall transaction,
      transacAsDest = Some transaction -> wellFormed transaction = true) ->
  exists hasTransac' pushed,
    cullAsDest t transacAsDest hasTransac states
    = ((hasTransac', states ++ pushed), [])
    /\ Forall (fun label => label <> Js.Undefined) pushed.
Proof.
  intros Hwf.
  destruct (decide (destinationFires t transacAsDest)) as [Hfires|Hidle].
  - destruct transacAsDest as [transaction|]; [| done].
    destruct (getTransactionStyleName_string transaction (Hwf _ eq_refl) "")
      as [name Hname].
    exists true, [Js.Str name].
    rewrite (cullAsDest_fires _ _ _ _ Hfires), Hname.
    split; [done | by repeat constructor].
  - exists hasTransac, []. rewrite cullAsDest_idle by done.
    by rewrite app_nil_r.
Qed.

Lemma cullFeature_wellFormed t BT i featureId states :
  wellFormedTable BT ->
  exists pushed,
    cullFeature t BT i featureId states = (states ++ pushed, [])
    /\ Forall (fun label => label <> Js.Undefined) pushed.
Proof.
  intros Hwf.
  destruct (decide (withinLifespan t BT i)) as [Hin|Hout].
  { exists [Js.Str "noTransaction"].
    rewrite cullFeature_exists by done. split; [done | by repeat constructor]. }
  destruct (featuresTransacs BT !! featureId) as [featureTransacs|] eqn:Hft.
  - destruct (cullAsSource_wellFormed t (asSource featureTransacs) false states)
      as (h1 & pushed1 & Hsource & Hstrings1).
    { intros transaction Hsrc. apply (Hwf _ _ _ Hft). by left. }
    destruct (cullAsDest_wellFormed t (asDestination featureTransacs) h1
                (states ++ pushed1))
      as (h2 & pushed2 & Hdest & Hstrings2).
    { intros transaction Hdst. apply (Hwf _ _ _ Hft). by right. }
    exists (pushed1 ++ pushed2 ++ if h2 then [] else [Js.Str "hide"]).
    split.
    + unfold cullFeature.
      rewrite (exists_test_false _ _ _ Hout), Hft.
      unfold mbind, Console_bind, Console.bind.
      rewrite Hsource, Hdest.
      destruct h2; cbn; by rewrite ?app_nil_r, <- ?app_assoc.
    + rewrite !Forall_app. split_and!; [done | done |].
      destruct h2; by repeat constructor.
  - destruct (cullFeature_no_record t BT i featureId Hft)
      as (label & Hown & Hpush & _).
    exists [label]. split; [apply Hpush |].
    constructor; [| done].
    unfold ownLabels in Hown. intros ->.
    repeat (apply elem_of_cons in Hown as [Heq|Hown]; [discriminate Heq |]).
    by apply elem_of_nil in Hown.
Qed.

Lemma cullFrom_wellFormed t BT rest i states :
  wellFormedTable BT ->
  exists labels,
    cullFrom t BT rest i states = (states ++ labels, [])
    /\ Forall (fun label => label <> Js.Undefined) labels.
Proof.
  intros Hwf. revert i states.
  induction rest as [|first rest IH]; intros i states.
  { exists []. cbn. by rewrite app_nil_r. }
  destruct (cullFeature_wellFormed t BT i first states Hwf)
    as (pushed & Hpush & Hstrings).
  destruct (IH (S i) (states ++ pushed)) as (labels & Hrest & Hall).
  exists (pushed ++ labels). split.
  - cbn [cullFrom]. unfold mbind, Console_bind, Console.bind.
    rewrite Hpush, Hrest. by rewrite <- app_assoc.
  - by apply Forall_app.
Qed.

(** X8. A transaction all of whose parts are primary or aggregate
    resolves to a string and prints nothing, whatever name has been
    accumulated; and for a batch table all of whose transactions are so,
    [culling] prints nothing and no label it returns is [undefined]. *)
Theorem culling_wellFormed :
  (forall transaction,
      wellFormed transaction = true ->
      forall styleName, exists name,
        getTransactionStyleName transaction styleName = (Js.Str name, []))
  /\ (forall t BT,
        wellFormedTable BT ->
        exists labels,
          culling t BT = (labels, [])
          /\ Forall (fun label => label <> Js.Undefined) labels).
Proof.
  split; [exact getTransactionStyleName_string |].
  intros t BT Hwf.
  apply (cullFrom_wellFormed t BT (featureIds BT) 0 [] Hwf).
Qed.

Lemma culling_wellFormed_witness :
  (exists name,
      getTransactionStyleName nestedAggregate "" = (Js.Str name, []))
  /\ exists labels,
      culling (Js.num 4) overlappingTable = (labels, [])
      /\ Forall (fun label => label <> Js.Undefined) labels.
Proof.
  split.
  - apply (proj1 culling_wellFormed nestedAggregate). reflexivity.
  - apply (proj2 culling_wellFormed (Js.num 4) overlappingTable).
    intros featureId featureTransacs transaction Hft Hrole.
    unfold overlappingTable in Hft. cbn [featuresTransacs] in Hft.
    apply lookup_singleton_Some in Hft as [_ <-].
    cbn in Hrole. by destruct Hrole; simplify_eq.
Defined.

(** ** More on the cache *)

Lemma cachedAt_current this tileId :
  cachedAt this (currentTime this) tileId = cachedStates this tileId.
Proof. reflexivity. Qed.

Lemma cachedAt_after_store tiles t0 tileId displayStates batchTables log
      t tile :
  (tiles !! t0 ≫= (fun inner => inner !! tileId)) = None ->
  cachedAt
    (mkTemporalProvider batchTables t0
       (alter (insert tileId displayStates) t0
          (if bool_decide (is_Some (tiles !! t0)) then tiles
           else <[t0 := ∅]> tiles))
       log) t tile
  = if decide (t = t0 /\ tile = tileId) then Some displayStates
    else tiles !! t ≫= (fun inner => inner !! tile).
Proof.
  intros Hmiss. unfold cachedAt; cbn [datedTilesDisplayStates].
  destruct (decide (t = t0)) as [->|Htime].
  - rewrite lookup_alter_eq.
    case_bool_decide as Hhas.
    + destruct Hhas as [inner Hinner]. rewrite Hinner in *. cbn in *.
      destruct (decide (tile = tileId)) as [->|Htile].
      * rewrite decide_True by done. apply lookup_insert_eq.
      * rewrite decide_False by tauto. by apply lookup_insert_ne.
    + rewrite lookup_insert_eq. cbn.
      assert (tiles !! t0 = None) as ->.
      { destruct (tiles !! t0) eqn:E; [| done]. destruct Hhas. by eexists. }
      cbn. destruct (decide (tile = tileId)) as [->|Htile].
      * rewrite decide_True by done. apply lookup_insert_eq.
      * rewrite decide_False by tauto. by rewrite lookup_insert_ne.
  - rewrite decide_False by tauto.
    rewrite lookup_alter_ne by done.
    case_bool_decide; [done |]. by rewrite lookup_insert_ne.
Qed.

Lemma computeFeaturesStatesWith_keeps cullingMethod tileId this :
  let this' := snd (computeFeaturesStatesWith cullingMethod tileId this) in
  currentTime this' = currentTime this
  /\ temporalBatchTables this' = temporalBatchTables this
  /\ (forall t tile displayStates,
        cachedAt this t tile = Some displayStates ->
        cachedAt this' t tile = Some displayStates).
Proof.
  intros this'. subst this'.
  destruct (decide (tileId = 0%Z)) as [->|Hroot].
  { by rewrite computeFeaturesStatesWith_root. }
  destruct (cachedStates this tileId) as [displayStates|] eqn:Hcache.
  { by rewrite (computeFeaturesStatesWith_hit _ _ _ _ Hroot Hcache). }
  destruct (temporalBatchTables this !! tileId) as [tileTemporalBT|] eqn:Hbt.
  - rewrite (computeFeaturesStatesWith_miss _ _ _ _ Hroot Hcache Hbt).
    cbn [snd currentTime temporalBatchTables].
    split_and!; [done | done |].
    intros t tile displayStates Hold.
    rewrite cachedAt_after_store by exact Hcache.
    case_decide as Hkey; [| exact Hold].
    destruct Hkey as [-> ->]. rewrite cachedAt_current in Hold. congruence.
  - by rewrite (computeFeaturesStatesWith_unloaded _ _ _ Hroot Hcache Hbt).
Qed.

Lemma computeFeaturesStates_cacheSound tileId this :
  cacheSound this -> cacheSound (snd (computeFeaturesStates tileId this)).
Proof.
  intros Hsound. unfold computeFeaturesStates.
  destruct (decide (tileId = 0%Z)) as [->|Hroot].
  { by rewrite computeFeaturesStatesWith_root. }
  destruct (cachedStates this tileId) as [displayStates|] eqn:Hcache.
  { by rewrite (computeFeaturesStatesWith_hit _ _ _ _ Hroot Hcache). }
  destruct (temporalBatchTables this !! tileId) as [tileTemporalBT|] eqn:Hbt.
  - rewrite (computeFeaturesStatesWith_miss _ _ _ _ Hroot Hcache Hbt).
    intros t tile displayStates. cbn [snd].
    rewrite cachedAt_after_store by exact Hcache.
    case_decide as Hkey; [| apply Hsound].
    destruct Hkey as [-> ->]. intros ?; simplify_eq.
    by exists tileTemporalBT.
  - by rewrite (computeFeaturesStatesWith_unloaded _ _ _ Hroot Hcache Hbt).
Qed.

(** X9. [computeFeaturesStates] leaves the current time and the batch
    tables as they were, only appends to the effects, and keeps every
    entry of the cache, for every time and tile: the one entry it can add
    is that of the current time and the requested tile. *)
Theorem computeFeaturesStates_keeps_cache cullingMethod tileId this :
  let this' := snd (computeFeaturesStatesWith cullingMethod tileId this) in
  currentTime this' = currentTime this
  /\ temporalBatchTables this' = temporalBatchTables this
  /\ (exists more, effects this' = effects this ++ more)
  /\ (forall t tile displayStates,
        cachedAt this t tile = Some displayStates ->
        cachedAt this' t tile = Some displayStates)
  /\ (forall t tile,
        cachedAt this' t tile <> cachedAt this t tile ->
        t = currentTime this /\ tile = tileId).
Proof.
  intros this'. subst this'.
  destruct (decide (tileId = 0%Z)) as [->|Hroot].
  { rewrite computeFeaturesStatesWith_root. cbn.
    split_and!; [done | done | | done | done].
    exists []. by rewrite app_nil_r. }
  destruct (cachedStates this tileId) as [displayStates|] eqn:Hcache.
  { rewrite (computeFeaturesStatesWith_hit _ _ _ _ Hroot Hcache). cbn.
    split_and!; [done | done | | done | done].
    exists []. by rewrite app_nil_r. }
  destruct (temporalBatchTables this !! tileId) as [tileTemporalBT|] eqn:Hbt.
  - rewrite (computeFeaturesStatesWith_miss _ _ _ _ Hroot Hcache Hbt).
    cbn [snd currentTime temporalBatchTables effects].
    split_and!; [done | done | by eexists | |].
    + intros t tile displayStates Hold.
      rewrite cachedAt_after_store by exact Hcache.
      case_decide as Hkey; [| exact Hold].
      destruct Hkey as [-> ->]. rewrite cachedAt_current in Hold. congruence.
    + intros t tile. rewrite cachedAt_after_store by exact Hcache.
      case_decide as Hkey; [done |]. by intros [].
  - rewrite (computeFeaturesStatesWith_unloaded _ _ _ Hroot Hcache Hbt).
    cbn. split_and!; [done | done | by eexists | done | done].
Qed.

(** X10. If every entry of the cache is what [culling] returns for its
    tile and time, then so it is after [computeFeaturesStates], and for a
    tile other than the root whose batch table is loaded the result is
    what [culling] returns for that table at the current time, computed
    now or taken from the cache. *)
Theorem computeFeaturesStates_sound tileId this :
  cacheSound this ->
  cacheSound (snd (computeFeaturesStates tileId this))
  /\ (forall tileTemporalBT,
        tileId <> 0%Z ->
        temporalBatchTables this !! tileId = Some tileTemporalBT ->
        fst (computeFeaturesStates tileId this)
        = StatesArray
            (Console.value (culling (currentTime this) tileTemporalBT))).
Proof.
  intros Hsound. split; [by apply computeFeaturesStates_cacheSound |].
  intros tileTemporalBT Hroot Hbt. unfold computeFeaturesStates.
  destruct (cachedStates this tileId) as [displayStates|] eqn:Hcache.
  - rewrite (computeFeaturesStatesWith_hit _ _ _ _ Hroot Hcache). cbn.
    destruct (Hsound _ _ _ Hcache) as (BT & HBT & ->). congruence.
  - by rewrite (computeFeaturesStatesWith_miss _ _ _ _ Hroot Hcache Hbt).
Qed.

Lemma computeFeaturesStates_keeps_cache_witness :
  cachedAt
    (snd (computeFeaturesStatesWith culling 7
            (snd (computeFeaturesStates 3 freshProvider))))
    (Js.num 4) 3
  = Some [Js.Str "noTransaction"; Js.Str "aggregate-modification"].
Proof.
  destruct (computeFeaturesStates_keeps_cache culling 7
              (snd (computeFeaturesStates 3 freshProvider)))
    as (_ & _ & _ & Hkept & _).
  apply Hkept. by vm_compute.
Defined.

Lemma computeFeaturesStates_sound_witness :
  fst (computeFeaturesStates 3 freshProvider)
  = StatesArray [Js.Str "noTransaction"; Js.Str "aggregate-modification"].
Proof.
  refine (proj2 (computeFeaturesStates_sound 3 freshProvider _)
            _ ltac:(done) eq_refl).
  intros t tileId displayStates Hentry. by vm_compute in Hentry.
Defined.

(** ** More on computeTileState *)

Lemma styleCalls_app first second :
  styleCalls (first ++ second) = styleCalls first ++ styleCalls second.
Proof. apply omap_app. Qed.

Lemma warnings_app first second :
  warnings (first ++ second) = warnings first ++ warnings second.
Proof. apply omap_app. Qed.

Lemma styleRequests_calls isStyleRegistered tileId rest i :
  styleCalls
    (concat (imap (fun k => styleRequest isStyleRegistered tileId (i + k))
               rest))
  = imap (fun k featureStyleName =>
            (mkCityObjectID tileId (i + k),
             if isStyleRegistered featureStyleName then featureStyleName
             else Js.Str "noTransaction")) rest.
Proof.
  revert i; induction rest as [|featureStyleName rest IH]; intros i; [done |].
  cbn [imap concat]. rewrite styleCalls_app.
  rewrite (imap_ext
             ((fun k => styleRequest isStyleRegistered tileId (i + k)) ∘ S)
             (fun k => styleRequest isStyleRegistered tileId (S i + k)))
    by (intros k label _; cbn; by rewrite Nat.add_succ_r).
  rewrite (IH (S i)).
  assert (styleCalls (styleRequest isStyleRegistered tileId (i + 0)
                        featureStyleName)
          = [(mkCityObjectID tileId (i + 0),
              if isStyleRegistered featureStyleName then featureStyleName
              else Js.Str "noTransaction")]) as ->.
  { unfold styleRequest. by destruct (isStyleRegistered featureStyleName). }
  cbn [app]. f_equal.
  apply imap_ext. intros k label _. cbn. by rewrite Nat.add_succ_r.
Qed.

Lemma styleRequests_warnings isStyleRegistered tileId rest i :
  warnings
    (concat (imap (fun k => styleRequest isStyleRegistered tileId (i + k))
               rest))
  = StyleNotRegistered
      <$> filter (fun name => isStyleRegistered name = false) rest.
Proof.
  revert i; induction rest as [|featureStyleName rest IH]; intros i; [done |].
  cbn [imap concat]. rewrite warnings_app, filter_cons.
  rewrite (imap_ext
             ((fun k => styleRequest isStyleRegistered tileId (i + k)) ∘ S)
             (fun k => styleRequest isStyleRegistered tileId (S i + k)))
    by (intros k label _; cbn; by rewrite Nat.add_succ_r).
  rewrite (IH (S i)). unfold styleRequest.
  destruct (isStyleRegistered featureStyleName) eqn:Hreg.
  - by rewrite decide_False by congruence.
  - by rewrite decide_True by done.
Qed.

(** X11. After the effects of [computeFeaturesStates], [computeTileState]
    makes exactly one [setStyle] call per element of the returned array,
    in index order, on the city object of that tile and index; the style
    it names is the label when the label is registered and
    ['noTransaction'] otherwise, and it warns once for each label that is
    not registered, in order. *)
Theorem computeTileState_one_call_each isStyleRegistered tileContent this :
  let featuresStates :=
    statesElements (fst (computeFeaturesStates (tileId tileContent) this)) in
  let this1 := snd (computeFeaturesStates (tileId tileContent) this) in
  let this2 := snd (computeTileState isStyleRegistered tileContent this) in
  exists more,
    this2 = withEffects this1 more
    /\ styleCalls more
       = imap (fun i featureStyleName =>
                 (mkCityObjectID (tileId tileContent) i,
                  if isStyleRegistered featureStyleName then featureStyleName
                  else Js.Str "noTransaction")) featuresStates
    /\ warnings more
       = StyleNotRegistered
           <$> filter (fun name => isStyleRegistered name = false)
                 featuresStates.
Proof.
  intros featuresStates this1 this2. subst featuresStates this1 this2.
  unfold computeTileState, computeTileStateWith.
  unfold mbind, Method_bind, Method.bind.
  fold computeFeaturesStates.
  destruct (computeFeaturesStates (tileId tileContent) this)
    as [featuresStates this1].
  rewrite styleFrom_effects. cbn [fst snd].
  eexists. split; [reflexivity |]. split.
  - apply (styleRequests_calls isStyleRegistered (tileId tileContent) _ 0).
  - apply (styleRequests_warnings isStyleRegistered (tileId tileContent) _ 0).
Qed.

(** X12. [computeTileState] tolerates the empty result: for the root
    tile it does nothing at all, and for another tile with no batch table
    loaded and no entry in the cache it only prints the warning of
    [computeFeaturesStates]; no [setStyle] call is made. *)
Theorem computeTileState_nothing_to_style isStyleRegistered tileContent this :
  (tileId tileContent = 0%Z ->
   computeTileState isStyleRegistered tileContent this = (tt, this))
  /\ (tileId tileContent <> 0%Z ->
      temporalBatchTables this !! tileId tileContent = None ->
      cachedStates this (tileId tileContent) = None ->
      computeTileState isStyleRegistered tileContent this
      = (tt, withEffects this
               [ConsoleWarn (BatchTableNotLoaded (tileId tileContent))])).
Proof.
  unfold computeTileState, computeTileStateWith.
  unfold mbind, Method_bind, Method.bind.
  split.
  - intros ->. by rewrite computeFeaturesStatesWith_root.
  - intros Hroot Hbt Hcache.
    by rewrite (computeFeaturesStatesWith_unloaded _ _ _ Hroot Hcache Hbt).
Qed.

Lemma computeTileState_nothing_to_style_witness :
  computeTileState (isRegisteredIn initTransactionsStyles) (mkTileContent 0)
    freshProvider = (tt, freshProvider)
  /\ computeTileState (isRegisteredIn initTransactionsStyles)
       (mkTileContent 7) freshProvider
     = (tt, withEffects freshProvider [ConsoleWarn (BatchTableNotLoaded 7)]).
Proof.
  split.
  - exact (proj1 (computeTileState_nothing_to_style _ (mkTileContent 0)
                    freshProvider) eq_refl).
  - refine (proj2 (computeTileState_nothing_to_style _ (mkTileContent 7)
                     freshProvider) _ _ _); by vm_compute.
Defined.

Lemma ownLabels_registered label :
  label ∈ ownLabels -> isRegisteredIn initTransactionsStyles label = true.
Proof.
  unfold ownLabels. intros Hin.
  repeat (apply elem_of_cons in Hin as [->|Hin]; [by vm_compute |]).
  by apply elem_of_nil in Hin.
Qed.

Lemma styleRequests_registered isStyleRegistered tileId rest i :
  Forall (fun label => isStyleRegistered label = true) rest ->
  concat (imap (fun k => styleRequest isStyleRegistered tileId (i + k)) rest)
  = imap (fun k label => SetStyle (mkCityObjectID tileId (i + k)) label) rest.
Proof.
  intros Hall; revert i.
  induction Hall as [|label rest Hreg _ IH]; intros i; [done |].
  cbn [imap concat]. unfold styleRequest at 1. rewrite Hreg. cbn [app].
  rewrite (imap_ext
             ((fun k => styleRequest isStyleRegistered tileId (i + k)) ∘ S)
             (fun k => styleRequest isStyleRegistered tileId (S i + k)))
    by (intros k label' _; cbn; by rewrite Nat.add_succ_r).
  rewrite (IH (S i)). f_equal.
  apply imap_ext. intros k label' _. cbn. by rewrite Nat.add_succ_r.
Qed.

(** X13. With the styles of [initTransactionsStyles] registered and a
    cache whose entries are what [culling] returns, for a tile other than
    the root whose loaded batch table has no transaction record,
    [computeTileState] prints nothing and makes one [setStyle] call per
    feature: the city object of the tile and of index [i] is styled with
    the label that [culling] gives the feature at index [i]. *)
Theorem computeTileState_without_transactions tileContent this BT :
  cacheSound this ->
  tileId tileContent <> 0%Z ->
  temporalBatchTables this !! tileId tileContent = Some BT ->
  (forall featureId, featureId ∈ featureIds BT ->
                     featuresTransacs BT !! featureId = None) ->
  exists labels,
    culling (currentTime this) BT = (labels, [])
    /\ length labels = length (featureIds BT)
    /\ effects (snd (computeTileState (isRegisteredIn initTransactionsStyles)
                       tileContent this))
       = effects this
         ++ imap (fun i label =>
                    SetStyle (mkCityObjectID (tileId tileContent) i) label)
              labels.
Proof.
  intros Hsound Hroot Hbt Hnone.
  destruct (cullFrom_no_record (currentTime this) BT (featureIds BT) 0 [] Hnone)
    as (labels & Hrun & Hlen & Hown & _).
  fold (culling (currentTime this) BT) in Hrun. cbn [app] in Hrun.
  exists labels. split_and!; [done | done |].
  assert (Forall (fun label =>
            isRegisteredIn initTransactionsStyles label = true) labels)
    as Hregistered.
  { rewrite Forall_forall in Hown |- *.
    intros label Hin. by apply ownLabels_registered, Hown. }
  unfold computeTileState, computeTileStateWith.
  unfold mbind, Method_bind, Method.bind.
  destruct (cachedStates this (tileId tileContent))
    as [displayStates|] eqn:Hcache.
  - rewrite (computeFeaturesStatesWith_hit _ _ _ _ Hroot Hcache).
    destruct (Hsound _ _ _ Hcache) as (BT' & HBT' & ->).
    simplify_eq. rewrite Hrun. cbn [statesElements Console.value fst].
    rewrite styleFrom_effects. cbn [snd withEffects effects]. f_equal.
    apply (styleRequests_registered _ _ _ 0 Hregistered).
  - rewrite (computeFeaturesStatesWith_miss _ _ _ _ Hroot Hcache Hbt).
    rewrite Hrun. cbn [statesElements Console.value Console.printed fst snd].
    rewrite styleFrom_effects.
    cbn [snd withEffects effects fmap list_fmap]. rewrite app_nil_r. f_equal.
    apply (styleRequests_registered _ _ _ 0 Hregistered).
Qed.

Lemma computeTileState_without_transactions_witness :
  effects (snd (computeTileState (isRegisteredIn initTransactionsStyles)
                  (mkTileContent 5) plainProvider))
  = [SetStyle (mkCityObjectID 5 0) (Js.Str "demolition")].
Proof.
  destruct (computeTileState_without_transactions (mkTileContent 5)
              plainProvider lifespan05)
    as (labels & Hrun & _ & Heffects).
  - intros t tile displayStates Hentry. by vm_compute in Hentry.
  - done.
  - reflexivity.
  - intros featureId _. apply lookup_empty.
  - rewrite Heffects. vm_compute in Hrun. by simplify_eq.
Defined.

(** ** Visible tiles *)

Module TilesUtilsFacts.

Import TilesUtils.

Section Facts.

Context {B M : Type}.

Implicit Types node child tile : Object3D B M.
Implicit Types tiles rest : list (Object3D B M).

(** Induction on a node with its children as hypotheses. *)
Lemma Object3D_nested_ind (P : Object3D B M -> Prop) :
  (forall ty id bt nodes geo mat,
      Forall P nodes -> P (mkObject3D ty id bt nodes geo mat)) ->
  forall node, P node.
Proof.
  intros Hstep. fix IH 1. intros [ty id bt nodes geo mat]. apply Hstep.
  induction nodes as [|first nodes IHnodes]; constructor;
    [apply IH | exact IHnodes].
Qed.

Lemma exploreTree_unfold node tiles :
  exploreTree node tiles
  = forEachChild (children node)
      (match batchTable node with
       | Some _ => tiles ++ [node]
       | None => tiles
       end).
Proof.
  by destruct node.
Qed.

Lemma forEachChild_appends rest :
  Forall (fun child =>
            forall tiles, exploreTree child tiles
                          = tiles ++ exploreTree child []) rest ->
  forall tiles, forEachChild rest tiles = tiles ++ forEachChild rest [].
Proof.
  induction 1 as [|child rest Hchild _ IH]; intros tiles.
  { cbn. by rewrite app_nil_r. }
  cbn [forEachChild]. destruct (String.eqb (type child) "Object3D").
  - rewrite (IH (exploreTree child tiles)), (IH (exploreTree child [])).
    rewrite (Hchild tiles). by rewrite app_assoc.
  - apply IH.
Qed.

(** The traversal only appends to the array it is given. *)
Lemma exploreTree_appends node tiles :
  exploreTree node tiles = tiles ++ exploreTree node [].
Proof.
  revert tiles.
  induction node as [ty id bt nodes geo mat IH] using Object3D_nested_ind.
  intros tiles. rewrite !exploreTree_unfold. cbn [children batchTable].
  destruct bt as [b|].
  - rewrite (forEachChild_appends _ IH (tiles ++ _)).
    rewrite (forEachChild_appends _ IH ([] ++ _)).
    cbn [app]. by rewrite <- app_assoc.
  - apply (forEachChild_appends _ IH).
Qed.

(** The array in pre-order: the node if it is a tile, then what each
    child of type ['Object3D'] gives, in order. *)
Lemma exploreTree_preorder node :
  exploreTree node []
  = (match batchTable node with Some _ => [node] | None => [] end)
    ++ concat ((fun child => exploreTree child [])
                 <$> filter (fun child => type child = "Object3D")
                       (children node)).
Proof.
  assert (forall rest tiles,
    forEachChild rest tiles
    = tiles ++ concat ((fun child => exploreTree child [])
                         <$> filter (fun child => type child = "Object3D")
                               rest)) as Hloop.
  { induction rest as [|child rest IH]; intros tiles.
    { cbn. by rewrite app_nil_r. }
    cbn [forEachChild]. rewrite filter_cons.
    destruct (String.eqb (type child) "Object3D") eqn:Htype.
    - apply String.eqb_eq in Htype. rewrite decide_True by done.
      rewrite IH, (exploreTree_appends child tiles). cbn.
      by rewrite app_assoc.
    - apply String.eqb_neq in Htype. rewrite decide_False by done.
      apply IH. }
  rewrite exploreTree_unfold, Hloop.
  by destruct (batchTable node).
Qed.

Lemma elem_of_concat (lists : list (list (Object3D B M))) tile :
  tile ∈ concat lists <-> exists found, tile ∈ found /\ found ∈ lists.
Proof.
  induction lists as [|first lists IH]; cbn [concat].
  - split; [intros Hin; by apply elem_of_nil in Hin |].
    intros (found & _ & Hin). by apply elem_of_nil in Hin.
  - rewrite elem_of_app, IH. split.
    + intros [Hin|(found & Hin & Hfound)].
      * exists first. split; [done | apply list_elem_of_here].
      * exists found. split; [done | by apply list_elem_of_further].
    + intros (found & Hin & Hfound).
      apply elem_of_cons in Hfound as [->|Hfound]; [by left |].
      right. by exists found.
Qed.

Lemma elem_of_exploreTree node tile :
  tile ∈ exploreTree node []
  <-> explored node tile /\ is_Some (batchTable tile).
Proof.
  revert tile.
  induction node as [ty id bt nodes geo mat IH] using Object3D_nested_ind.
  intros tile. rewrite exploreTree_preorder. cbn [batchTable children].
  rewrite elem_of_app, elem_of_concat.
  assert (forall x, x ∈ nodes ->
            forall tile, tile ∈ exploreTree x []
                         <-> explored x tile /\ is_Some (batchTable tile))
    as IH'.
  { clear -IH. induction IH as [|first nodes Hfirst _ IHnodes];
      intros x Hx; [by apply elem_of_nil in Hx |].
    apply elem_of_cons in Hx as [->|Hx]; [done | by apply IHnodes]. }
  clear IH. rename IH' into IH.
  split.
  - intros [Hhere|(found & Hin & Hfound)].
    + destruct bt as [b|]; [| by apply elem_of_nil in Hhere].
      apply list_elem_of_singleton in Hhere as ->.
      split; [constructor | by eexists].
    + apply list_elem_of_fmap in Hfound as (child & -> & Hchild).
      apply list_elem_of_filter in Hchild as [Htype Hchild].
      apply (IH _ Hchild) in Hin as [Hexplored Htile].
      split; [| done]. by apply (explored_below _ child).
  - intros [Hexplored Htile].
    inversion Hexplored as [Heq | child tile' Hchild Htype Hbelow Heq];
      subst.
    + left. destruct Htile as [b Hb]. cbn in Hb. subst bt.
      apply list_elem_of_here.
    + right. cbn [children] in Hchild.
      exists (exploreTree child []). split.
      * by apply (IH _ Hchild).
      * apply list_elem_of_fmap. exists child. split; [done |].
        by apply list_elem_of_filter.
Qed.


Lemma find_first (found : Object3D B M -> bool) rest :
  match List.find found rest with
  | Some tile =>
    exists before after,
      rest = before ++ tile :: after
      /\ found tile = true
      /\ Forall (fun child => found child = false) before
  | None => Forall (fun child => found child = false) rest
  end.
Proof.
  induction rest as [|first rest IH]; cbn [List.find]; [done |].
  destruct (found first) eqn:Hfirst.
  - exists [], rest. by split_and!.
  - destruct (List.find found rest) as [tile|].
    + destruct IH as (before & after & -> & Htile & Hbefore).
      exists (first :: before), after. split_and!; [done | done |].
      by constructor.
    + by constructor.
Qed.

(** X14. For a layer that has a root tile, [getVisibleTiles] returns
    exactly the nodes that have a batch table among the root tile and the
    nodes reached from it through children of type ['Object3D'], a
    child of another type hiding all that is below it; the array is in
    pre-order, and [getVisibleTileCount] is its length.  For a layer
    without a root tile both throw. *)
Theorem getVisibleTiles_explored (layer : Layer B M) :
  (children (object3d layer) = [] ->
   getVisibleTiles layer = Throw TypeError
   /\ getVisibleTileCount layer = Throw TypeError)
  /\ (forall rootTile,
        children (object3d layer) !! 0%nat = Some rootTile ->
        exists tiles,
          getVisibleTiles layer = Normal tiles
          /\ getVisibleTileCount layer = Normal (length tiles)
          /\ (forall tile,
                tile ∈ tiles
                <-> explored rootTile tile /\ is_Some (batchTable tile))
          /\ tiles
             = (match batchTable rootTile with
                | Some _ => [rootTile]
                | None => []
                end)
               ++ concat ((fun child => exploreTree child [])
                            <$> filter (fun child => type child = "Object3D")
                                  (children rootTile))).
Proof.
  unfold getVisibleTileCount, getVisibleTiles. split.
  - by intros ->.
  - intros rootTile ->. exists (exploreTree rootTile []).
    split_and!; [done | done | | apply exploreTree_preorder].
    intros tile. apply elem_of_exploreTree.
Qed.

(** X15. For a layer that has a root tile, [getTileInLayer] returns the
    first of the children of the root tile whose [tileId] is the one
    asked for, and [undefined] when no child of the root tile has it:
    only the children of the root are looked at, whatever their type.
    For a layer without a root tile it throws. *)
Theorem getTileInLayer_first_child (layer : Layer B M) id :
  (children (object3d layer) = [] ->
   getTileInLayer layer id = Throw TypeError)
  /\ (forall rootTile,
        children (object3d layer) !! 0%nat = Some rootTile ->
        exists result,
          getTileInLayer layer id = Normal result
          /\ match result with
             | Some tile =>
               exists before after,
                 children rootTile = before ++ tile :: after
                 /\ tileId tile = id
                 /\ Forall (fun child => tileId child <> id) before
             | None =>
               Forall (fun child => tileId child <> id) (children rootTile)
             end).
Proof.
  unfold getTileInLayer. split.
  - by intros ->.
  - intros rootTile ->. exists (getTileInTileset rootTile id).
    split; [done |]. unfold getTileInTileset.
    pose proof (find_first (fun tile => bool_decide (tileId tile = id))
                  (children rootTile)) as Hfind.
    destruct (List.find _ (children rootTile)) as [tile|].
    + destruct Hfind as (before & after & Hsplit & Hid & Hbefore).
      exists before, after.
      split_and!; [done | by apply bool_decide_eq_true in Hid |].
      clear -Hbefore.
      induction Hbefore as [|child ? Hchild _ IH]; constructor;
        [by apply bool_decide_eq_false in Hchild | done].
    + clear -Hfind.
      induction Hfind as [|child ? Hchild _ IH]; constructor;
        [by apply bool_decide_eq_false in Hchild | done].
Qed.

End Facts.

Lemma getVisibleTiles_explored_witness :
  getVisibleTileCount sampleLayer = Normal 2%nat.
Proof.
  destruct (proj2 (getVisibleTiles_explored sampleLayer) _ eq_refl)
    as (tiles & _ & -> & _ & ->).
  reflexivity.
Defined.

Lemma getTileInLayer_first_child_witness :
  getTileInLayer sampleLayer 5 = Normal None.
Proof.
  destruct (proj2 (getTileInLayer_first_child sampleLayer 5) _ eq_refl)
    as (result & -> & Hresult).
  destruct result as [tile|]; [| done].
  destruct Hresult as (before & after & Hsplit & Hid & _).
  exfalso. cbn in Hsplit.
  destruct before as [|? [|? [|? before]]]; simplify_eq/=.
  destruct before; simplify_eq/=.
Defined.

End TilesUtilsFacts.

(** ** changeTileState and changeVisibleTilesStates *)

Lemma cacheSound_withEffects this more :
  cacheSound this -> cacheSound (withEffects this more).
Proof. intros Hsound t tile displayStates. apply Hsound. Qed.

Lemma computeTileState_run isStyleRegistered tileContent this :
  exists more,
    computeTileState isStyleRegistered tileContent this
    = (tt, withEffects (snd (computeFeaturesStates (tileId tileContent) this))
             more).
Proof.
  unfold computeTileState, computeTileStateWith.
  unfold mbind, Method_bind, Method.bind.
  fold computeFeaturesStates.
  destruct (computeFeaturesStates (tileId tileContent) this)
    as [featuresStates this1].
  rewrite styleFrom_effects. by eexists.
Qed.

(** After [computeFeaturesStates] on a loaded tile the states of the tile
    are in the cache. *)
Lemma computeFeaturesStates_caches tileId this tileTemporalBT :
  cacheSound this ->
  tileId <> 0%Z ->
  temporalBatchTables this !! tileId = Some tileTemporalBT ->
  cachedStates (snd (computeFeaturesStates tileId this)) tileId
  = Some (Console.value (culling (currentTime this) tileTemporalBT)).
Proof.
  intros Hsound Hroot Hbt. unfold computeFeaturesStates.
  destruct (cachedStates this tileId) as [displayStates|] eqn:Hcache.
  - rewrite (computeFeaturesStatesWith_hit _ _ _ _ Hroot Hcache). cbn.
    destruct (Hsound _ _ _ Hcache) as (BT & HBT & ->). congruence.
  - rewrite (computeFeaturesStatesWith_miss _ _ _ _ Hroot Hcache Hbt). cbn.
    apply cachedStates_after_miss.
Qed.

(** What one [computeTileState] keeps and adds. *)
Lemma computeTileState_step isStyleRegistered tileContent this :
  let this' := snd (computeTileState isStyleRegistered tileContent this) in
  currentTime this' = currentTime this
  /\ temporalBatchTables this' = temporalBatchTables this
  /\ (cacheSound this -> cacheSound this')
  /\ (forall t tile displayStates,
        cachedAt this t tile = Some displayStates ->
        cachedAt this' t tile = Some displayStates)
  /\ (forall tileTemporalBT,
        cacheSound this ->
        tileId tileContent <> 0%Z ->
        temporalBatchTables this !! tileId tileContent = Some tileTemporalBT ->
        cachedStates this' (tileId tileContent)
        = Some (Console.value (culling (currentTime this) tileTemporalBT))).
Proof.
  intros this'. subst this'.
  destruct (computeTileState_run isStyleRegistered tileContent this)
    as [more ->]. cbn [snd].
  destruct (computeFeaturesStatesWith_keeps culling (tileId tileContent) this)
    as (Htime & Htables & Hkept).
  fold computeFeaturesStates in Htime, Htables, Hkept.
  split_and!.
  - exact Htime.
  - exact Htables.
  - intros Hsound. apply cacheSound_withEffects.
    by apply computeFeaturesStates_cacheSound.
  - exact Hkept.
  - intros tileTemporalBT Hsound Hroot Hbt.
    by apply (computeFeaturesStates_caches _ _ _ Hsound Hroot Hbt).
Qed.

Lemma computeTilesStates_loop {B M : Type} isStyleRegistered
      (tiles : list (TilesUtils.Object3D B M)) this :
  let this' := snd (computeTilesStates isStyleRegistered tiles this) in
  currentTime this' = currentTime this
  /\ temporalBatchTables this' = temporalBatchTables this
  /\ (cacheSound this -> cacheSound this')
  /\ (forall t tile displayStates,
        cachedAt this t tile = Some displayStates ->
        cachedAt this' t tile = Some displayStates)
  /\ (forall tile tileTemporalBT,
        cacheSound this ->
        tile ∈ tiles ->
        TilesUtils.tileId tile <> 0%Z ->
        temporalBatchTables this !! TilesUtils.tileId tile
        = Some tileTemporalBT ->
        cachedStates this' (TilesUtils.tileId tile)
        = Some (Console.value (culling (currentTime this) tileTemporalBT))).
Proof.
  revert this; induction tiles as [|first tiles IH]; intros this this'.
  { subst this'. cbn. split_and!; try done.
    intros tile ? _ Hin. by apply elem_of_nil in Hin. }
  subst this'. cbn [computeTilesStates].
  unfold mbind, Method_bind, Method.bind.
  destruct (computeTileState isStyleRegistered
              (mkTileContent (TilesUtils.tileId first)) this)
    as [[] this1] eqn:Hstep.
  pose proof (computeTileState_step isStyleRegistered
                (mkTileContent (TilesUtils.tileId first)) this) as Hfirst.
  rewrite Hstep in Hfirst. cbn [snd tileId] in Hfirst.
  destruct Hfirst as (Htime1 & Htables1 & Hsound1 & Hkept1 & Hstored1).
  destruct (IH this1) as (Htime & Htables & Hsound & Hkept & Hstored).
  split_and!.
  - by rewrite Htime.
  - by rewrite Htables.
  - auto.
  - auto.
  - intros tile tileTemporalBT Hsound0 Hin Hroot Hbt.
    apply elem_of_cons in Hin as [->|Hin].
    + unfold cachedStates. rewrite Htime.
      apply (Hkept (currentTime this1) (TilesUtils.tileId first)).
      by apply Hstored1.
    + rewrite <- Htime1. apply Hstored; auto. by rewrite Htables1.
Qed.

(** X16. [changeVisibleTilesStates] throws and does nothing for a layer
    without a root tile.  Otherwise it ends normally and, when
    [applyStyles] leaves the time and the cache alone and the entries of
    the cache are what [culling] returns, every visible tile other than
    the root whose batch table is loaded has afterwards, in the cache at
    the current time, what [culling] returns for its table. *)
Theorem changeVisibleTilesStates_caches {B M : Type} isStyleRegistered
    applyStyles (layer : TilesUtils.Layer B M) this :
  leavesCache applyStyles ->
  cacheSound this ->
  (TilesUtils.children (TilesUtils.object3d layer) = [] ->
   changeVisibleTilesStates isStyleRegistered applyStyles layer this
   = (Throw TypeError, this))
  /\ (forall tiles,
        TilesUtils.getVisibleTiles layer = Normal tiles ->
        let outcome :=
          changeVisibleTilesStates isStyleRegistered applyStyles layer this in
        fst outcome = Normal tt
        /\ forall tile tileTemporalBT,
            tile ∈ tiles ->
            TilesUtils.tileId tile <> 0%Z ->
            temporalBatchTables this !! TilesUtils.tileId tile
            = Some tileTemporalBT ->
            cachedStates (snd outcome) (TilesUtils.tileId tile)
            = Some (Console.value
                      (culling (currentTime this) tileTemporalBT))).
Proof.
  intros Hframe Hsound. unfold changeVisibleTilesStates. split.
  - unfold TilesUtils.getVisibleTiles. by intros ->.
  - intros tiles Htiles. cbv zeta. rewrite Htiles.
    unfold mbind, Method_bind, Method.bind.
    destruct (computeTilesStates isStyleRegistered tiles this)
      as [[] this1] eqn:Hloop.
    destruct (applyStyles this1) as [[] this2] eqn:Happly.
    cbn [fst snd]. split; [done |].
    intros tile tileTemporalBT Hin Hroot Hbt.
    destruct (computeTilesStates_loop isStyleRegistered tiles this)
      as (_ & _ & _ & _ & Hstored).
    rewrite Hloop in Hstored. cbn [snd] in Hstored.
    destruct (Hframe this1) as [Htime Hcache].
    rewrite Happly in Htime, Hcache. cbn [snd] in Htime, Hcache.
    unfold mret, Method_ret, Method.ret. cbn [snd].
    unfold cachedStates. rewrite Htime, Hcache.
    by apply Hstored.
Qed.

Lemma changeVisibleTilesStates_caches_witness :
  cachedStates
    (snd (changeVisibleTilesStates (isRegisteredIn initTransactionsStyles)
            (mret tt) sampleLayer freshProvider)) 3
  = Some [Js.Str "noTransaction"; Js.Str "aggregate-modification"].
Proof.
  destruct (changeVisibleTilesStates_caches
              (isRegisteredIn initTransactionsStyles) (mret tt) sampleLayer
              freshProvider) as [_ Hcached].
  - by intros this.
  - intros t tile displayStates Hentry. by vm_compute in Hentry.
  - destruct (Hcached _ eq_refl) as [_ Hstored].
    refine (Hstored (plainNode "Object3D" 3 (Some 30%nat) _)
              _ _ _ eq_refl); [| done].
    apply list_elem_of_here.
Defined.

(** X17. After [changeTileState] for a tile other than the root whose
    batch table is loaded, when [applyStyleToTile] leaves the time and
    the cache alone and the entries of the cache are what [culling]
    returns, the states of the tile at the current time are in the cache
    and are what [culling] returns for its table, so that
    [computeFeaturesStates] then returns them without running
    [culling]. *)
Theorem changeTileState_caches isStyleRegistered applyStyleToTile
    tileContent this tileTemporalBT :
  leavesCache (applyStyleToTile (tileId tileContent) false) ->
  cacheSound this ->
  tileId tileContent <> 0%Z ->
  temporalBatchTables this !! tileId tileContent = Some tileTemporalBT ->
  let this' :=
    snd (changeTileState isStyleRegistered applyStyleToTile tileContent this) in
  let displayStates :=
    Console.value (culling (currentTime this) tileTemporalBT) in
  cachedStates this' (tileId tileContent) = Some displayStates
  /\ forall cullingMethod,
      computeFeaturesStatesWith cullingMethod (tileId tileContent) this'
      = (StatesArray displayStates, this').
Proof.
  intros Hframe Hsound Hroot Hbt this' displayStates.
  assert (cachedStates this' (tileId tileContent) = Some displayStates)
    as Hstored.
  { subst this'. unfold changeTileState, mbind, Method_bind, Method.bind.
    destruct (computeTileState isStyleRegistered tileContent this)
      as [[] this1] eqn:Hstep.
    destruct (Hframe this1) as [Htime Hcache].
    unfold cachedStates. rewrite Htime, Hcache.
    pose proof (computeTileState_step isStyleRegistered tileContent this)
      as (_ & _ & _ & _ & Hstored).
    rewrite Hstep in Hstored. by apply Hstored. }
  split; [exact Hstored |].
  intros cullingMethod. by apply computeFeaturesStatesWith_hit.
Qed.

Lemma changeTileState_caches_witness :
  cachedStates
    (snd (changeTileState (isRegisteredIn initTransactionsStyles)
            (fun _ _ => mret tt) (mkTileContent 3) freshProvider)) 3
  = Some [Js.Str "noTransaction"; Js.Str "aggregate-modification"].
Proof.
  refine (proj1 (changeTileState_caches
                   (isRegisteredIn initTransactionsStyles)
                   (fun _ _ => mret tt) (mkTileContent 3) freshProvider
                   _ _ _ _ eq_refl)); [by intros this | | done].
  intros t tile displayStates Hentry. by vm_compute in Hentry.
Defined.

(** ** Tile groups *)

Module TileGroupsFacts.

Import TilesUtils.

Lemma insertRange_Permutation range sorted :
  Permutation (insertRange range sorted) (range :: sorted).
Proof.
  induction sorted as [|next sorted IH]; cbn [insertRange]; [done |].
  case_bool_decide; [done |].
  rewrite IH. apply perm_swap.
Qed.

Lemma sortRanges_Permutation ranges : Permutation (sortRanges ranges) ranges.
Proof.
  induction ranges as [|range ranges IH]; cbn [sortRanges]; [done |].
  by rewrite insertRange_Permutation, IH.
Qed.

Lemma insertRange_sorted range sorted :
  StronglySorted byStart sorted ->
  StronglySorted byStart (insertRange range sorted).
Proof.
  induction 1 as [|next sorted Hsorted IH Hnext]; cbn [insertRange].
  { repeat constructor. }
  case_bool_decide as Hle.
  - constructor; [by constructor |].
    constructor; [done |].
    eapply Forall_impl; [exact Hnext |].
    intros other Hother. unfold byStart in *. lia.
  - constructor; [done |].
    rewrite insertRange_Permutation.
    constructor; [unfold byStart; lia | done].
Qed.

Lemma sortRanges_sorted ranges : StronglySorted byStart (sortRanges ranges).
Proof.
  induction ranges as [|range ranges IH]; cbn [sortRanges].
  - constructor.
  - by apply insertRange_sorted.
Qed.


Lemma insertRange_apart range sorted :
  Forall (apart range) sorted ->
  ForallOrdPairs apart sorted ->
  ForallOrdPairs apart (insertRange range sorted).
Proof.
  intros Hrange Hsorted. revert Hrange.
  induction Hsorted as [|next sorted Hnext Hsorted IH]; intros Hrange;
    cbn [insertRange].
  { repeat constructor. }
  case_bool_decide.
  - constructor; [done | by constructor].
  - apply Forall_cons in Hrange as [Hfirst Hrange].
    constructor; [| by apply IH].
    rewrite insertRange_Permutation. constructor; [| done].
    intros vertex [? ?]. by apply (Hfirst vertex).
Qed.

Lemma sortRanges_apart ranges :
  ForallOrdPairs apart ranges -> ForallOrdPairs apart (sortRanges ranges).
Proof.
  induction 1 as [|range ranges Hrange _ IH]; cbn [sortRanges].
  - constructor.
  - apply insertRange_apart; [| done].
    by rewrite sortRanges_Permutation.
Qed.

Lemma separated_of_sorted ranges position :
  StronglySorted byStart ranges ->
  ForallOrdPairs apart ranges ->
  Forall (fun range => 0 < range.2)%Z ranges ->
  Forall (fun range => position <= range.1)%Z ranges ->
  separated position ranges.
Proof.
  intros Hsorted; revert position.
  induction Hsorted as [|range ranges _ IH Hleast];
    intros position Hapart Hcounts Hfrom; [done |].
  inversion Hapart as [|? ? Hrange Hrest]; subst.
  apply Forall_cons in Hcounts as [Hcount Hcounts].
  apply Forall_cons in Hfrom as [Hfirst _].
  cbn [separated]. split_and!; [done | done |].
  apply IH; [done | done |].
  clear -Hleast Hrange Hcount Hcounts.
  induction Hleast as [|other ranges Hother _ IH]; [done |].
  apply Forall_cons in Hrange as [Hapart Hrange].
  apply Forall_cons in Hcounts as [Hpositive Hcounts].
  constructor; [| by apply IH].
  destruct (decide (range.1 + range.2 <= other.1)%Z) as [|Hover]; [done |].
  destruct (Hapart other.1). unfold inRange, byStart in *. lia.
Qed.

Lemma holders_app vertex first second :
  holders vertex (first ++ second)
  = (holders vertex first + holders vertex second)%nat.
Proof. unfold holders. by rewrite filter_app, length_app. Qed.

Lemma holders_one vertex group :
  holders vertex [group] = if decide (holds group vertex) then 1%nat else 0%nat.
Proof.
  unfold holders. rewrite filter_cons, filter_nil.
  repeat case_decide; (done || tauto).
Qed.

Lemma holders_gapBefore vertex position range :
  holders vertex (gapBefore position range)
  = if decide (position <= vertex < range.1)%Z then 1%nat else 0%nat.
Proof.
  unfold gapBefore. case_bool_decide.
  - rewrite holders_one. unfold holds; cbn [start count].
    repeat case_decide; lia.
  - cbn. case_decide; lia.
Qed.

Lemma holders_cons vertex group groups :
  holders vertex (group :: groups)
  = ((if decide (holds group vertex) then 1 else 0)
     + holders vertex groups)%nat.
Proof.
  change (group :: groups) with ([group] ++ groups).
  by rewrite holders_app, holders_one.
Qed.

Lemma holders_before total vertex ranges position :
  separated position ranges ->
  (vertex < position)%Z ->
  holders vertex (ofSecondMaterial <$> ranges) = 0%nat
  /\ holders vertex (gapsAfter total ranges) = 0%nat.
Proof.
  revert position; induction ranges as [|range ranges IH];
    intros position Hsep Hbefore; [done |].
  destruct Hsep as (Hfrom & Hcount & Hsep).
  destruct (IH _ Hsep ltac:(lia)) as [Hsecond Hgaps].
  split.
  - cbn [fmap list_fmap]. rewrite holders_cons. fold (fmap ofSecondMaterial ranges).
    rewrite Hsecond. unfold holds.
    change (start (ofSecondMaterial range)) with range.1.
    change (count (ofSecondMaterial range)) with range.2.
    case_decide; lia.
  - cbn [gapsAfter]. destruct ranges as [|next ranges].
    + case_bool_decide; [| done]. rewrite holders_one.
      unfold holds; cbn [start count]. case_decide; lia.
    + rewrite holders_app, holders_gapBefore, Hgaps. case_decide; lia.
Qed.

Lemma holders_from total vertex ranges position first :
  head ranges = Some first ->
  separated position ranges ->
  Forall (fun range => range.1 + range.2 <= total)%Z ranges ->
  (position <= vertex < total)%Z ->
  (holders vertex (ofSecondMaterial <$> ranges)
   + holders vertex (gapBefore position first)
   + holders vertex (gapsAfter total ranges))%nat = 1%nat.
Proof.
  revert position first; induction ranges as [|range ranges IH];
    intros position first Hhead Hsep Hends Hvertex; [done |].
  cbn in Hhead. simplify_eq.
  destruct Hsep as (Hfrom & Hcount & Hsep).
  apply Forall_cons in Hends as [Hend Hends].
  cbn [fmap list_fmap]. rewrite holders_cons. fold (fmap ofSecondMaterial ranges).
  rewrite holders_gapBefore. cbn [gapsAfter].
  destruct ranges as [|next ranges].
  - cbn [fmap list_fmap]. unfold holds.
    change (start (ofSecondMaterial first)) with first.1.
    change (count (ofSecondMaterial first)) with first.2.
    case_bool_decide.
    + rewrite holders_one. unfold holds; cbn [start count].
      cbn. repeat case_decide; lia.
    + cbn. repeat case_decide; lia.
  - rewrite holders_app, holders_gapBefore.
    unfold holds.
    change (start (ofSecondMaterial first)) with first.1.
    change (count (ofSecondMaterial first)) with first.2.
    destruct (decide (vertex < first.1 + first.2)%Z) as [Hin|Hafter].
    + destruct (holders_before total vertex (next :: ranges) _ Hsep Hin)
        as [-> ->].
      repeat case_decide; lia.
    + specialize (IH (first.1 + first.2)%Z next eq_refl Hsep Hends
                    ltac:(lia)).
      rewrite holders_gapBefore in IH.
      repeat case_decide; lia.
Qed.


Lemma gapBefore_first_material position range :
  Forall (fun group => materialIndex group = 0%Z) (gapBefore position range).
Proof. unfold gapBefore. case_bool_decide; by repeat constructor. Qed.

Lemma gapsAfter_first_material total ranges :
  Forall (fun group => materialIndex group = 0%Z) (gapsAfter total ranges).
Proof.
  induction ranges as [|range ranges IH]; cbn [gapsAfter]; [done |].
  destruct ranges as [|next ranges].
  - case_bool_decide; by repeat constructor.
  - apply Forall_app. split; [apply gapBefore_first_material | done].
Qed.

Lemma betweenRanges_gaps total ranges groups :
  ranges <> [] ->
  match ranges !! (length ranges - 1)%nat with
  | Some final =>
    if bool_decide (final.1 + final.2 < total)%Z
    then betweenRanges ranges groups
         ++ [mkGroup (final.1 + final.2) (total - (final.1 + final.2)) 0]
    else betweenRanges ranges groups
  | None => betweenRanges ranges groups
  end
  = groups ++ gapsAfter total ranges.
Proof.
  revert groups; induction ranges as [|range ranges IH]; intros groups Hsome;
    [done |].
  destruct ranges as [|next ranges].
  - cbn. case_bool_decide; by rewrite ?app_nil_r.
  - replace (length (range :: next :: ranges) - 1)%nat
      with (S (length (next :: ranges) - 1)) by (cbn [length]; lia).
    remember (length (next :: ranges) - 1)%nat as final eqn:Hfinal.
    change ((range :: next :: ranges) !! S final)
      with ((next :: ranges) !! final).
    change (betweenRanges (range :: next :: ranges) groups)
      with (betweenRanges (next :: ranges)
              (if bool_decide (next.1 - (range.1 + range.2) > 0)%Z
               then groups ++ [mkGroup (range.1 + range.2)
                                 (next.1 - (range.1 + range.2)) 0]
               else groups)).
    change (gapsAfter total (range :: next :: ranges))
      with (gapBefore (range.1 + range.2) next
            ++ gapsAfter total (next :: ranges)).
    specialize (IH (if bool_decide (next.1 - (range.1 + range.2) > 0)%Z
                    then groups ++ [mkGroup (range.1 + range.2)
                                      (next.1 - (range.1 + range.2)) 0]
                    else groups) ltac:(done)).
    etransitivity; [exact IH |]. unfold gapBefore. cbv zeta.
    case_bool_decide; by rewrite ?app_nil_r, <- ?app_assoc.
Qed.

Lemma addedGroups_nonempty total first rest :
  addedGroups total (first :: rest)
  = (ofSecondMaterial <$> first :: rest)
    ++ gapBefore 0 first ++ gapsAfter total (first :: rest).
Proof.
  unfold addedGroups.
  change (fun range : Range => mkGroup range.1 range.2 1)
    with ofSecondMaterial.
  rewrite betweenRanges_gaps by done.
  unfold gapBefore. rewrite Z.sub_0_r.
  case_bool_decide; by rewrite ?app_nil_r, <- ?app_assoc.
Qed.

Lemma filter_singleton vertex groups :
  holders vertex groups = 1%nat ->
  exists group, filter (fun group => holds group vertex) groups = [group].
Proof.
  unfold holders.
  destruct (filter _ groups) as [|group [|]]; [done | | done].
  by exists group.
Qed.

Section Groups.

Context {B M : Type}.

Implicit Types tile mesh : Object3D B M.

Lemma findMesh_stops tile :
  firstChildren tile (findMesh tile)
  /\ (type (findMesh tile) = "Mesh" \/ children (findMesh tile) = []).
Proof.
  induction tile as [ty id bt nodes geo mat IH] using
    TilesUtilsFacts.Object3D_nested_ind.
  cbn [findMesh]. destruct nodes as [|first others].
  { split; [constructor | by right]. }
  destruct (String.eqb ty "Mesh") eqn:Htype; cbn [negb].
  - apply String.eqb_eq in Htype. split; [constructor | by left].
  - apply String.eqb_neq in Htype.
    apply Forall_cons in IH as [[Hpath Hstop] _].
    split; [| done]. by apply (firstChildren_down _ first others).
Qed.

Lemma getMesh_geometry tile mesh :
  getMesh (Some tile) = Normal mesh ->
  mesh = findMesh tile
  /\ exists meshGeometry meshAttributes batchIds,
      geometry mesh = Some meshGeometry
      /\ attributes meshGeometry = Some meshAttributes
      /\ BATCHID meshAttributes = Some batchIds
      /\ geometryType meshGeometry = "BufferGeometry".
Proof.
  unfold getMesh.
  destruct (geometry (findMesh tile)) as [meshGeometry|] eqn:Hgeometry;
    [| done].
  destruct (attributes meshGeometry) as [meshAttributes|] eqn:Hattributes;
    [| done].
  destruct (BATCHID meshAttributes) as [batchIds|] eqn:Hbatch; [| done].
  destruct (String.eqb (geometryType meshGeometry) "BufferGeometry")
    eqn:Htype; [| done].
  cbn [negb]. intros [= <-]. apply String.eqb_eq in Htype.
  split; [done |]. by exists meshGeometry, meshAttributes, batchIds.
Qed.

(** X18. [getMesh] throws ['Tile not loaded in view'] when there is no
    tile.  When it returns, the node returned is reached from the tile by
    going to the first child from nodes not of type ['Mesh'], is of type
    ['Mesh'] or has no child, and has a geometry of type
    ['BufferGeometry'] with a [_BATCHID] attribute. *)
Theorem getMesh_found :
  getMesh (B := B) (M := M) None = Throw (Message "Tile not loaded in view")
  /\ (forall tile mesh,
        getMesh (Some tile) = Normal mesh ->
        firstChildren tile mesh
        /\ (type mesh = "Mesh" \/ children mesh = [])
        /\ exists meshGeometry meshAttributes batchIds,
            geometry mesh = Some meshGeometry
            /\ attributes meshGeometry = Some meshAttributes
            /\ BATCHID meshAttributes = Some batchIds
            /\ geometryType meshGeometry = "BufferGeometry").
Proof.
  split; [done |]. intros tile mesh Hmesh.
  destruct (getMesh_geometry _ _ Hmesh) as [-> Hgeometry].
  destruct (findMesh_stops tile) as [Hpath Hstop].
  by split_and!.
Qed.

(** X19. When the ranges given to [createTileGroups] are within the
    vertices of the mesh, not empty, and no two of them share a vertex,
    the groups of the mesh after the call split the vertices: each
    vertex is in exactly one group, and that group is of the second
    material when the vertex is in one of the ranges and of the first
    material otherwise. *)
Theorem createTileGroups_splits_vertices
    (tile : option (Object3D B M)) groupColor groupOpacity ranges mesh
    meshGeometry meshAttributes batchIds :
  getMesh tile = Normal mesh ->
  geometry mesh = Some meshGeometry ->
  attributes meshGeometry = Some meshAttributes ->
  BATCHID meshAttributes = Some batchIds ->
  Forall (fun range =>
            0 <= range.1 /\ 0 < range.2
            /\ range.1 + range.2 <= attributeCount batchIds)%Z ranges ->
  ForallOrdPairs apart ranges ->
  exists mesh' meshGeometry',
    createTileGroups tile groupColor groupOpacity ranges
    = Normal (mesh', sortRanges ranges)
    /\ geometry mesh' = Some meshGeometry'
    /\ forall vertex,
        (0 <= vertex < attributeCount batchIds)%Z ->
        exists group,
          filter (fun group => holds group vertex) (groups meshGeometry')
          = [group]
          /\ (materialIndex group = 1%Z
              <-> Exists (fun range => inRange range vertex) ranges)
          /\ (materialIndex group = 0%Z \/ materialIndex group = 1%Z).
Proof.
  intros Hmesh Hgeometry Hattributes Hbatch Hwithin Hapart.
  unfold createTileGroups. rewrite Hmesh, Hgeometry, Hattributes.
  cbn [mbind option_bind]. rewrite Hbatch.
  eexists _, _. split; [reflexivity |]. split; [reflexivity |].
  cbn [groups]. intros vertex Hvertex.
  set (total := attributeCount batchIds) in *.
  pose proof (sortRanges_Permutation ranges) as Hperm.
  destruct (sortRanges ranges) as [|first rest] eqn:Hsorted.
  { apply Permutation_nil_l in Hperm. subst ranges.
    exists (mkGroup 0 total 0). cbn [addedGroups].
    rewrite filter_cons, filter_nil.
    rewrite decide_True by (unfold holds; cbn; lia).
    split_and!; [done | | by left].
    split; [done |]. intros Hin. by apply Exists_nil in Hin. }
  rewrite addedGroups_nonempty.
  assert (separated 0 (first :: rest)) as Hseparated.
  { rewrite <- Hsorted. apply separated_of_sorted.
    - apply sortRanges_sorted.
    - by apply sortRanges_apart.
    - rewrite sortRanges_Permutation.
      eapply Forall_impl; [exact Hwithin |]. by intros range (_ & ? & _).
    - rewrite sortRanges_Permutation.
      eapply Forall_impl; [exact Hwithin |]. by intros range (? & _). }
  assert (Forall (fun range => range.1 + range.2 <= total)%Z (first :: rest))
    as Hends.
  { rewrite Hperm.
    eapply Forall_impl; [exact Hwithin |]. by intros range (_ & _ & ?). }
  pose proof (holders_from total vertex (first :: rest) 0 first eq_refl
                Hseparated Hends Hvertex) as Hone.
  rewrite <- !holders_app, <- app_assoc in Hone.
  destruct (filter_singleton _ _ Hone) as [group Hgroup].
  exists group. split; [exact Hgroup |].
  assert (forall other,
            other ∈ ((ofSecondMaterial <$> first :: rest)
                       ++ gapBefore 0 first ++ gapsAfter total (first :: rest))
            -> holds other vertex -> other = group) as Honly.
  { intros other Hin Hholds.
    assert (other ∈ [group]) as Hother.
    { rewrite <- Hgroup. by apply list_elem_of_filter. }
    by apply list_elem_of_singleton in Hother. }
  assert (group ∈ ((ofSecondMaterial <$> first :: rest)
                     ++ gapBefore 0 first ++ gapsAfter total (first :: rest))
          /\ holds group vertex) as [Hin Hholds].
  { apply and_comm, (list_elem_of_filter (fun group => holds group vertex)).
    rewrite Hgroup. apply list_elem_of_here. }
  assert (group ∈ (ofSecondMaterial <$> first :: rest)
          \/ materialIndex group = 0%Z) as Hkind.
  { apply elem_of_app in Hin as [Hin|Hin]; [by left | right].
    pose proof (gapBefore_first_material 0 first) as Hlead.
    pose proof (gapsAfter_first_material total (first :: rest)) as Htail.
    rewrite Forall_forall in Hlead, Htail.
    apply elem_of_app in Hin as [Hin|Hin]; auto. }
  split.
  - split.
    + intros Hindex. destruct Hkind as [Hsecond|Hfirst]; [| congruence].
      apply list_elem_of_fmap in Hsecond as (range & -> & Hrange).
      apply Exists_exists. exists range. split; [| exact Hholds].
      by rewrite <- Hperm.
    + intros Hexists. apply Exists_exists in Hexists as (range & Hrange & Hvert).
      rewrite <- Hperm in Hrange.
      rewrite <- (Honly (ofSecondMaterial range)); [done | | exact Hvert].
      apply elem_of_app. left. by apply list_elem_of_fmap_2.
  - destruct Hkind as [Hsecond|Hfirst]; [right | by left].
    by apply list_elem_of_fmap in Hsecond as (range & -> & _).
Qed.

(** X20. [createTileGroups] throws what [getMesh] throws.  Otherwise it
    leaves the array [ranges] of the caller sorted by increasing start,
    with the same ranges, and the mesh with the material it had, the
    first one if it had several, followed by the new material exactly
    when [ranges] is not empty; with no range the mesh gets the single
    group of all its vertices. *)
Theorem createTileGroups_shape
    (tile : option (Object3D B M)) groupColor groupOpacity ranges :
  (forall e,
      getMesh tile = Throw e ->
      createTileGroups tile groupColor groupOpacity ranges = Throw e)
  /\ (forall mesh,
        getMesh tile = Normal mesh ->
        exists mesh' meshGeometry batchIds,
          createTileGroups tile groupColor groupOpacity ranges
          = Normal (mesh', sortRanges ranges)
          /\ StronglySorted byStart (sortRanges ranges)
          /\ Permutation (sortRanges ranges) ranges
          /\ material mesh'
             = Multi ((match material mesh with
                       | Single m => m
                       | Multi ms => default UndefinedMaterial (ms !! 0%nat)
                       end)
                      :: match ranges with
                         | [] => []
                         | _ :: _ =>
                           [MeshLambertMaterial groupColor groupOpacity]
                         end)
          /\ children mesh' = children mesh
          /\ geometry mesh = Some meshGeometry
          /\ attributes meshGeometry ≫= BATCHID = Some batchIds
          /\ (ranges = [] ->
              geometry mesh'
              = Some (mkGeometry (geometryType meshGeometry)
                        (attributes meshGeometry)
                        [mkGroup 0 (attributeCount batchIds) 0]))).
Proof.
  unfold createTileGroups. split.
  - by intros e ->.
  - intros mesh Hmesh. rewrite Hmesh.
    destruct tile as [tile|]; [| done].
    destruct (getMesh_geometry _ _ Hmesh)
      as (_ & meshGeometry & meshAttributes & batchIds
          & Hgeometry & Hattributes & Hbatch & _).
    rewrite Hgeometry, Hattributes. cbn [mbind option_bind]. rewrite Hbatch.
    eexists _, meshGeometry, batchIds.
    split_and!; [reflexivity | apply sortRanges_sorted
                 | apply sortRanges_Permutation | | done | done
                 | by rewrite Hattributes
                 | intros ->; by rewrite Hattributes].
    cbn [material]. by destruct (material mesh), ranges.
Qed.

End Groups.

Lemma getMesh_found_witness : firstChildren sampleTile sampleMesh.
Proof.
  exact (proj1 (proj2 getMesh_found sampleTile sampleMesh eq_refl)).
Defined.

Lemma createTileGroups_splits_vertices_witness :
  exists mesh' meshGeometry',
    createTileGroups (Some sampleTile) 255 (Js.num 1) [(5, 4); (0, 3)]%Z
    = Normal (mesh', [(0, 3); (5, 4)]%Z)
    /\ geometry mesh' = Some meshGeometry'.
Proof.
  destruct (createTileGroups_splits_vertices (Some sampleTile) 255 (Js.num 1)
              [(5, 4); (0, 3)]%Z sampleMesh _ _ _
              eq_refl eq_refl eq_refl eq_refl)
    as (mesh' & meshGeometry' & Hrun & Hgeometry & _).
  - repeat constructor; cbn; lia.
  - repeat constructor. intros vertex [[? ?] [? ?]]. cbn in *. lia.
  - by exists mesh', meshGeometry'.
Defined.

Lemma createTileGroups_shape_witness :
  exists mesh',
    createTileGroups (Some sampleTile) 255 (Js.num 1) []
    = Normal (mesh', [])
    /\ material mesh' = Multi [Existing 7%nat].
Proof.
  destruct (proj2 (createTileGroups_shape (Some sampleTile) 255 (Js.num 1) [])
              sampleMesh eq_refl)
    as (mesh' & meshGeometry & batchIds & Hrun & _ & _ & Hmaterial & _).
  by exists mesh'.
Defined.

End TileGroupsFacts.
